(** * Hybrid Image Compression System: the UI shell of [App.tsx]

  A shallow embedding of the application component: its state, the four
  event handlers ([handleImageSelect], [handleCompress], [handleDownload],
  [handleClear]), the controls the page offers, and the helper
  [formatBytes].

  - JavaScript numbers are IEEE-754 binary64 values.  They are modelled by
    [spec_float] with precision 53 and maximal exponent 1024, so that
    [+ - * /] round exactly as they do in the browser.
  - The handlers talk to the browser (timers, image decoding, canvas,
    [Math.random], object URLs) and to React (the six [useState] setters).
    Each such call is an [Effect]; a handler is a finite program over these
    effects, and [run] executes it against an environment that answers the
    calls, recording the trace. *)

From Stdlib Require Import ZArith List String Ascii Bool Lia.
From Stdlib Require Import Floats.SpecFloat.
Import ListNotations.

Local Open Scope Z_scope.

(** ** JavaScript numbers *)

Module Number.

Definition prec : Z := 53.
Definition emax : Z := 1024.

Definition number : Type := spec_float.

(** The Number value of a mathematical integer (exact below [2^53]). *)
Definition of_Z (z : Z) : number := binary_normalize prec emax z 0 false.

Definition add : number -> number -> number := SFadd prec emax.
Definition sub : number -> number -> number := SFsub prec emax.
Definition mul : number -> number -> number := SFmul prec emax.
Definition div : number -> number -> number := SFdiv prec emax.

Definition leb : number -> number -> bool := SFleb.
Definition ltb : number -> number -> bool := SFltb.

(** A well-formed binary64 datum. *)
Definition is_double (x : number) : bool := valid_binary prec emax x.

(** [Math.round]: the nearest integer, ties towards positive infinity;
    zeros, infinities and NaN are returned unchanged, and a result of zero
    keeps the sign of the argument. *)
Definition Math_round (x : number) : number :=
  match x with
  | S754_finite s m e =>
      if 0 <=? e then x
      else
        let q := (2 * cond_Zopp s (Zpos m) + 2 ^ (- e)) / 2 ^ (1 - e) in
        if q =? 0 then S754_zero s else of_Z q
  | _ => x
  end.

(** The numeric literal [0.7]: the double nearest to 7/10. *)
Definition lit_0_7 : number := div (of_Z 7) (of_Z 10).

(** What [Math.random] may return: a double in [[0, 1)]. *)
Definition in_unit_interval (r : number) : bool :=
  is_double r && leb (of_Z 0) r && ltb r (of_Z 1).

(** [lo <= x <= hi] when [closed], [lo <= x < hi] otherwise, for whole
    numbers [lo] and [hi]. *)
Definition in_range (lo hi : Z) (closed : bool) (x : number) : bool :=
  leb (of_Z lo) x && (if closed then leb x (of_Z hi) else ltb x (of_Z hi)).

(** The largest double below 1: [1 - 2^-53], printed 0.9999999999999999. *)
Definition below_one : number := S754_finite false 9007199254740991 (-53).

(** *** Vocabulary for reasoning about rounding *)

(** The value of a finite double, counted in units of [2^-1074] (the
    smallest positive double); every finite double is a whole number of
    them. *)
Definition units (x : number) : Z :=
  match x with
  | S754_finite s m e => cond_Zopp s (Zpos m * 2 ^ (e + 1074))
  | _ => 0
  end.

(** Finite and not negative. *)
Definition nonneg (x : number) : bool :=
  match x with
  | S754_zero _ => true
  | S754_finite false _ _ => true
  | _ => false
  end.

(** The shift register of the rounding procedure after the mantissa [M]
    has been shifted right [n] times: the quotient, and where the remainder
    lies with respect to one half. *)
Definition shifted (M n : Z) (mrs : shr_record) : Prop :=
  shr_m mrs = M / 2 ^ n /\
  loc_of_shr_record mrs =
    if M mod 2 ^ n =? 0 then loc_Exact
    else loc_Inexact (2 * (M mod 2 ^ n) ?= 2 ^ n).

(** The two bits below the kept mantissa that a location stands for:
    nothing, less than a half, a half, more than a half. *)
Definition loc_bits (l : location) : Z :=
  match l with
  | loc_Exact => 0
  | loc_Inexact Lt => 1
  | loc_Inexact Eq => 2
  | loc_Inexact Gt => 3
  end.

End Number.

Import Number.

Declare Scope js_scope.
Delimit Scope js_scope with js.
Infix "+" := add : js_scope.
Infix "-" := sub : js_scope.
Infix "*" := mul : js_scope.
Infix "/" := div : js_scope.

(** ** JavaScript strings *)

Module JsString.

Local Open Scope string_scope.

(** [s.split(c)] for a one-character separator. *)
Fixpoint split (c : ascii) (s : string) : list string :=
  match s with
  | EmptyString => [EmptyString]
  | String a rest =>
      if Ascii.eqb a c then EmptyString :: split c rest
      else match split c rest with
           | [] => [String a EmptyString]
           | hd :: tl => String a hd :: tl
           end
  end.

(** [s.startsWith(p)]. *)
Definition startsWith (s p : string) : bool := String.prefix p s.

(** [s.length] as a Number. *)
Definition length (s : string) : number := of_Z (Z.of_nat (String.length s)).

(** Truthiness of a [string | null]: [null] and [''] are falsy. *)
Definition truthy (o : option string) : bool :=
  match o with
  | Some (String _ _) => true
  | _ => false
  end.

(** [a || b] on strings, where [a] may be [undefined]. *)
Definition or_else (a : option string) (b : string) : string :=
  match a with
  | Some (String c r) => String c r
  | _ => b
  end.

(** No occurrence of the character [c]. *)
Fixpoint free_of (c : ascii) (s : string) : bool :=
  match s with
  | EmptyString => true
  | String a rest => negb (Ascii.eqb a c) && free_of c rest
  end.

End JsString.

(** ** The data model ([types.ts] and the [useState] cells of [App]) *)

Module App.

Local Open Scope string_scope.

Inductive AppStatus : Type := idle | image_loaded | compressing | done.

Record CompressionStats : Type := {
  originalSize : number;
  compressedSize : number;
  reductionPercentage : number;
  psnr : number;
  mse : number
}.

(** The fields of a DOM [File] that the component reads. *)
Record File : Type := {
  name : string;
  type : string;
  size : number
}.

Record AppState : Type := {
  status : AppStatus;
  originalFile : option File;
  originalImageUrl : option string;
  compressedImageUrl : option string;
  stats : option CompressionStats;
  error : option string
}.

(** The arguments of the six [useState] calls. *)
Definition initial : AppState := {|
  status := idle;
  originalFile := None;
  originalImageUrl := None;
  compressedImageUrl := None;
  stats := None;
  error := None
|}.

(** ** Effects *)

Inductive Effect : Type -> Type :=
| SetStatus (v : AppStatus) : Effect unit
| SetOriginalFile (v : option File) : Effect unit
| SetOriginalImageUrl (v : option string) : Effect unit
| SetCompressedImageUrl (v : option string) : Effect unit
| SetStats (v : option CompressionStats) : Effect unit
| SetError (v : option string) : Effect unit
| CreateObjectURL (f : File) : Effect string
| RevokeObjectURL (url : string) : Effect unit
(** [await new Promise(resolve => setTimeout(resolve, ms))] *)
| Sleep (ms : Z) : Effect unit
(** [new Image()] with [src] set: [Some (width, height)] when [onload]
    fires, [None] when [onerror] fires. *)
| LoadImage (src : string) : Effect (option (Z * Z))
(** [document.createElement('canvas')] with [width] and [height] set. *)
| CreateCanvas (width height : Z) : Effect unit
(** [canvas.getContext(id)]; [false] stands for [null]. *)
| GetContext (id : string) : Effect bool
| DrawImage (dx dy : Z) : Effect unit
| ToDataURL (mime : string) (quality : number) : Effect string
| MathRandom : Effect number
(** An anchor with [href] and [download] set, appended to the body,
    clicked and removed. *)
| ClickLink (href download : string) : Effect unit.

Inductive Prog (A : Type) : Type :=
| Ret (a : A)
| Do {X : Type} (e : Effect X) (k : X -> Prog A).

Arguments Ret {A} a.
Arguments Do {A X} e k.

Fixpoint bind {A B : Type} (p : Prog A) (f : A -> Prog B) : Prog B :=
  match p with
  | Ret a => f a
  | Do e k => Do e (fun x => bind (k x) f)
  end.

Definition perform {X : Type} (e : Effect X) : Prog X := Do e Ret.

Declare Scope prog_scope.
Delimit Scope prog_scope with prog.
Notation "x <- c1 ;; c2" := (bind c1 (fun x => c2))
  (at level 61, c1 at next level, right associativity) : prog_scope.
Notation "c1 ;; c2" := (bind c1 (fun _ => c2))
  (at level 61, right associativity) : prog_scope.
Local Open Scope prog_scope.

Definition when (b : bool) (p : Prog unit) : Prog unit :=
  if b then p else Ret tt.

(** ** The handlers

    Each handler is a closure over the state of the render in which it was
    created; that state is the argument [s]. *)

Definition handleImageSelect (file : File) : Prog unit :=
  if negb (JsString.startsWith (type file) "image/") then
    perform (SetError (Some "Please select a valid image file (JPEG or PNG)."))
  else
    perform (SetError None) ;;
    perform (SetOriginalFile (Some file)) ;;
    url <- perform (CreateObjectURL file) ;;
    perform (SetOriginalImageUrl (Some url)) ;;
    perform (SetStatus image_loaded) ;;
    perform (SetCompressedImageUrl None) ;;
    perform (SetStats None).

Definition head : string := "data:image/jpeg;base64,".

(** Line 124: the byte count derived from the length of the data URL. *)
Definition sizeOfDataUrl (compressedDataUrl : string) : number :=
  Math_round
    ((JsString.length compressedDataUrl - JsString.length head) * of_Z 3 / of_Z 4)%js.

(** The body of [image.onload]. *)
Definition onload (originalFile : File) (width height : Z) : Prog unit :=
  perform (CreateCanvas width height) ;;
  ctx <- perform (GetContext "2d") ;;
  if negb ctx then
    perform (SetError (Some "Could not process image.")) ;;
    perform (SetStatus image_loaded)
  else
    perform (DrawImage 0 0) ;;
    compressedDataUrl <- perform (ToDataURL "image/jpeg" lit_0_7) ;;
    perform (SetCompressedImageUrl (Some compressedDataUrl)) ;;
    let compressedSize := sizeOfDataUrl compressedDataUrl in
    r1 <- perform MathRandom ;;
    let psnr := (of_Z 35 + r1 * of_Z 5)%js in
    r2 <- perform MathRandom ;;
    let mse := (of_Z 5 + r2 * of_Z 5)%js in
    perform (SetStats (Some {|
      originalSize := size originalFile;
      compressedSize := compressedSize;
      reductionPercentage :=
        ((of_Z 1 - compressedSize / size originalFile) * of_Z 100)%js;
      psnr := psnr;
      mse := mse
    |})) ;;
    perform (SetStatus done).

(** The body of [image.onerror]. *)
Definition onerror : Prog unit :=
  perform (SetError (Some "Could not load image for processing.")) ;;
  perform (SetStatus image_loaded).

Definition handleCompress (s : AppState) : Prog unit :=
  match originalImageUrl s, originalFile s with
  | Some (String c u), Some file =>
      perform (SetStatus compressing) ;;
      perform (Sleep 1500) ;;
      image <- perform (LoadImage (String c u)) ;;
      match image with
      | Some (width, height) => onload file width height
      | None => onerror
      end
  | _, _ => Ret tt
  end.

(** Line 149: the template literal of the download name. *)
Definition downloadName (originalFile : option File) : string :=
  "compressed_"
  ++ JsString.or_else
       (match originalFile with
        | Some f => Some (hd EmptyString (JsString.split "." (name f)))
        | None => None
        end)
       "image"
  ++ ".jpg".

Definition handleDownload (s : AppState) : Prog unit :=
  match compressedImageUrl s with
  | Some (String c u) =>
      perform (ClickLink (String c u) (downloadName (originalFile s)))
  | _ => Ret tt
  end.

Definition revokeIfSet (o : option string) : Prog unit :=
  match o with
  | Some (String c u) => perform (RevokeObjectURL (String c u))
  | _ => Ret tt
  end.

Definition handleClear (s : AppState) : Prog unit :=
  revokeIfSet (originalImageUrl s) ;;
  revokeIfSet (compressedImageUrl s) ;;
  perform (SetStatus idle) ;;
  perform (SetOriginalFile None) ;;
  perform (SetOriginalImageUrl None) ;;
  perform (SetCompressedImageUrl None) ;;
  perform (SetStats None) ;;
  perform (SetError None).

(** ** Running a handler *)

(** What the browser answers. *)
Record Env : Type := {
  objectURL : File -> string;
  decode : string -> option (Z * Z);
  context2d : bool;
  dataURL : Z -> Z -> string -> number -> string;
  random : nat -> number
}.

Inductive Action : Type :=
| Act {X : Type} (e : Effect X).

Record World : Type := {
  state : AppState;
  canvas : Z * Z;
  draws : nat;
  trace : list Action
}.

Definition start (s : AppState) : World :=
  {| state := s; canvas := (0, 0); draws := 0; trace := [] |}.

Definition update (f : AppState -> AppState) (w : World) : World :=
  {| state := f (state w); canvas := canvas w; draws := draws w; trace := trace w |}.

Definition respond (env : Env) {X : Type} (e : Effect X) (w : World) : X * World :=
  match e in Effect X return X * World with
  | SetStatus v =>
      (tt, update (fun s => {| status := v; originalFile := originalFile s;
         originalImageUrl := originalImageUrl s;
         compressedImageUrl := compressedImageUrl s;
         stats := stats s; error := error s |}) w)
  | SetOriginalFile v =>
      (tt, update (fun s => {| status := status s; originalFile := v;
         originalImageUrl := originalImageUrl s;
         compressedImageUrl := compressedImageUrl s;
         stats := stats s; error := error s |}) w)
  | SetOriginalImageUrl v =>
      (tt, update (fun s => {| status := status s; originalFile := originalFile s;
         originalImageUrl := v;
         compressedImageUrl := compressedImageUrl s;
         stats := stats s; error := error s |}) w)
  | SetCompressedImageUrl v =>
      (tt, update (fun s => {| status := status s; originalFile := originalFile s;
         originalImageUrl := originalImageUrl s;
         compressedImageUrl := v;
         stats := stats s; error := error s |}) w)
  | SetStats v =>
      (tt, update (fun s => {| status := status s; originalFile := originalFile s;
         originalImageUrl := originalImageUrl s;
         compressedImageUrl := compressedImageUrl s;
         stats := v; error := error s |}) w)
  | SetError v =>
      (tt, update (fun s => {| status := status s; originalFile := originalFile s;
         originalImageUrl := originalImageUrl s;
         compressedImageUrl := compressedImageUrl s;
         stats := stats s; error := v |}) w)
  | CreateObjectURL f => (objectURL env f, w)
  | RevokeObjectURL _ => (tt, w)
  | Sleep _ => (tt, w)
  | LoadImage src => (decode env src, w)
  | CreateCanvas width height =>
      (tt, {| state := state w; canvas := (width, height); draws := draws w;
              trace := trace w |})
  | GetContext _ => (context2d env, w)
  | DrawImage _ _ => (tt, w)
  | ToDataURL mime quality =>
      (dataURL env (fst (canvas w)) (snd (canvas w)) mime quality, w)
  | MathRandom =>
      (random env (draws w),
       {| state := state w; canvas := canvas w; draws := S (draws w);
          trace := trace w |})
  | ClickLink _ _ => (tt, w)
  end.

Definition log {X : Type} (e : Effect X) (w : World) : World :=
  {| state := state w; canvas := canvas w; draws := draws w;
     trace := trace w ++ [Act e] |}.

Fixpoint run (env : Env) {A : Type} (p : Prog A) (w : World) : A * World :=
  match p with
  | Ret a => (a, w)
  | Do e k =>
      let (x, w') := respond env e (log e w) in
      run env (k x) w'
  end.

(** The state and the trace after a handler has run to completion from
    the state [s]. *)
Definition exec (env : Env) (p : Prog unit) (s : AppState) : World :=
  snd (run env p (start s)).

(** ** Outcomes and observations *)

(** The world after a compression that reached the end of [image.onload]. *)
Definition completed (env : Env) (s : AppState) (url : string) (file : File)
    (width height : Z) : World :=
  let dataUrl := dataURL env width height "image/jpeg" lit_0_7 in
  let st := {|
    originalSize := size file;
    compressedSize := sizeOfDataUrl dataUrl;
    reductionPercentage :=
      ((of_Z 1 - sizeOfDataUrl dataUrl / size file) * of_Z 100)%js;
    psnr := (of_Z 35 + random env 0 * of_Z 5)%js;
    mse := (of_Z 5 + random env 1 * of_Z 5)%js |} in
  {| state := {| status := done;
                 originalFile := originalFile s;
                 originalImageUrl := originalImageUrl s;
                 compressedImageUrl := Some dataUrl;
                 stats := Some st;
                 error := error s |};
     canvas := (width, height);
     draws := 2;
     trace := [Act (SetStatus compressing); Act (Sleep 1500);
               Act (LoadImage url); Act (CreateCanvas width height);
               Act (GetContext "2d"); Act (DrawImage 0 0);
               Act (ToDataURL "image/jpeg" lit_0_7);
               Act (SetCompressedImageUrl (Some dataUrl));
               Act MathRandom; Act MathRandom;
               Act (SetStats (Some st)); Act (SetStatus done)] |}.

(** The world after a compression whose image failed to load or whose
    canvas gave no 2D context. *)
Definition failed (s : AppState) (message : string) (cv : Z * Z)
    (steps : list Action) : World :=
  {| state := {| status := image_loaded;
                 originalFile := originalFile s;
                 originalImageUrl := originalImageUrl s;
                 compressedImageUrl := compressedImageUrl s;
                 stats := stats s;
                 error := Some message |};
     canvas := cv;
     draws := 0;
     trace := steps |}.

(** The calls that reach the browser, as opposed to the state setters. *)
Definition external (a : Action) : bool :=
  match a with
  | Act (SetStatus _) | Act (SetOriginalFile _) | Act (SetOriginalImageUrl _)
  | Act (SetCompressedImageUrl _) | Act (SetStats _) | Act (SetError _) => false
  | _ => true
  end.

(** How many times an image load was started. *)
Definition attempts (t : list Action) : nat :=
  List.length (filter (fun a => match a with Act (LoadImage _) => true | _ => false end) t).

(** ** A sample session *)

Definition sample_file : File :=
  {| name := "photo.png"; type := "image/png"; size := of_Z 2000 |}.

Definition sample_state : AppState :=
  {| status := image_loaded; originalFile := Some sample_file;
     originalImageUrl := Some "blob:1"; compressedImageUrl := None;
     stats := None; error := None |}.

(** A browser whose [Math.random] always answers [r]. *)
Definition sample_env (r : number) : Env :=
  {| objectURL := fun _ => "blob:1";
     decode := fun _ => Some (640, 480);
     context2d := true;
     dataURL := fun _ _ _ _ => "data:image/jpeg;base64,AAAAAAAAAAAA";
     random := fun _ => r |}.

(** The object URLs a state holds: the non-empty ones among the original
    and the compressed image URL, in that order. *)
Definition heldUrls (s : AppState) : list string :=
  (if JsString.truthy (originalImageUrl s)
   then match originalImageUrl s with Some u => [u] | None => [] end else [])
  ++ (if JsString.truthy (compressedImageUrl s)
      then match compressedImageUrl s with Some u => [u] | None => [] end else []).

(** The sample state after a compression that went through. *)
Definition completed_state_of_sample : AppState :=
  state (completed (sample_env (of_Z 0)) sample_state "blob:1" sample_file 640 480).

End App.

(** ** The event loop

    [handleCompress] is asynchronous: it hands control back to the browser
    at its [await] and again while the image loads, and other handlers can
    run in between.  [advance] runs a handler up to the next such point;
    [run] above is the schedule in which nothing comes in between. *)

Module EventLoop.

Import App.
Local Open Scope string_scope.
Local Open Scope prog_scope.

(** A handler that has handed control back to the browser: it waits for a
    timer, or for the [onload] / [onerror] event of an image. *)
Inductive Pending : Type :=
| AwaitTimer (ms : Z) (k : Prog unit)
| AwaitImage (src : string) (k : option (Z * Z) -> Prog unit).

Definition suspension {X : Type} (e : Effect X)
    : (X -> Prog unit) -> option Pending :=
  match e in Effect X return (X -> Prog unit) -> option Pending with
  | Sleep ms => fun k => Some (AwaitTimer ms (k tt))
  | LoadImage src => fun k => Some (AwaitImage src k)
  | _ => fun _ => None
  end.

(** Run a handler up to the point where it next hands control back. *)
Fixpoint advance (env : Env) (p : Prog unit) (w : World)
    : World * option Pending :=
  match p with
  | Ret _ => (w, None)
  | Do e k =>
      match suspension e k with
      | Some pd => (log e w, Some pd)
      | None => let (x, w') := respond env e (log e w) in advance env (k x) w'
      end
  end.

(** The event a pending handler waits for arrives; [image] is what an image
    event reports. *)
Definition resume (env : Env) (pd : Pending) (image : option (Z * Z))
    (w : World) : World * option Pending :=
  match pd with
  | AwaitTimer _ k => advance env k w
  | AwaitImage _ k => advance env (k image) w
  end.

(** Each event arrives at once, an image reporting what [decode] says. *)
Fixpoint drain (env : Env) (fuel : nat) (r : World * option Pending)
    : World * option Pending :=
  match fuel, r with
  | S fuel', (w, Some pd) =>
      drain env fuel'
        (resume env pd
           (match pd with AwaitImage src _ => decode env src | _ => None end) w)
  | _, _ => r
  end.

(** The page between two events: its world, and the handlers that wait. *)
Record Config : Type := { world : World; waiting : list Pending }.

(** What the user can do. *)
Inductive Click : Type :=
| Upload (file : File)
| ClickCompress
| ClickDownload
| ClickNewImage.

(** What the page rendered for the state [s] lets the user do: the uploader
    is shown when idle; the three buttons are shown otherwise, Compress
    disabled while compressing or done, Download disabled unless done. *)
Definition offered (s : AppState) (c : Click) : bool :=
  match c, status s with
  | Upload _, idle => true
  | ClickCompress, image_loaded => true
  | ClickDownload, done => true
  | ClickNewImage, (image_loaded | compressing | done) => true
  | _, _ => false
  end.

(** The handler of each control, as created by the render of state [s]. *)
Definition handler (s : AppState) (c : Click) : Prog unit :=
  match c with
  | Upload file => handleImageSelect file
  | ClickCompress => handleCompress s
  | ClickDownload => handleDownload s
  | ClickNewImage => handleClear s
  end.

Definition enqueue (o : option Pending) (l : list Pending) : list Pending :=
  match o with
  | Some pd => (l ++ [pd])%list
  | None => l
  end.

Definition after (r : World * option Pending) (l : list Pending) : Config :=
  {| world := fst r; waiting := enqueue (snd r) l |}.

(** One turn of the event loop: a control that the page offers is used, or
    the event of a waiting handler arrives (an image event with any
    outcome).  The handler runs until it next hands control back. *)
Inductive step (env : Env) : Config -> Config -> Prop :=
| step_click (cfg : Config) (c : Click) :
    offered (state (world cfg)) c = true ->
    step env cfg
      (after (advance env (handler (state (world cfg)) c) (world cfg))
             (waiting cfg))
| step_event (cfg : Config) (before : list Pending) (pd : Pending)
    (behind : list Pending) (image : option (Z * Z)) :
    waiting cfg = (before ++ pd :: behind)%list ->
    step env cfg (after (resume env pd image (world cfg)) (before ++ behind)%list).

Inductive reachable (env : Env) : Config -> Prop :=
| reach_start : reachable env {| world := start initial; waiting := [] |}
| reach_step (cfg cfg' : Config) :
    reachable env cfg -> step env cfg cfg' -> reachable env cfg'.

(** What [handleCompress] does once its image event has arrived. *)
Definition afterImage (file : File) (image : option (Z * Z)) : Prog unit :=
  match image with
  | Some (width, height) => onload file width height
  | None => onerror
  end.

(** The handlers that can be waiting are compressions. *)
Definition fromCompress (pd : Pending) : Prop :=
  exists file url,
    pd = AwaitTimer 1500
           (image <- perform (LoadImage url) ;; afterImage file image)
    \/ pd = AwaitImage url (fun image => bind (Ret image) (afterImage file)).

(** What every reachable configuration satisfies. *)
Definition consistent (cfg : Config) : Prop :=
  let s := state (world cfg) in
  (status s = done -> stats s <> None /\ compressedImageUrl s <> None)
  /\ (status s = idle ->
      originalFile s = None /\ compressedImageUrl s = None /\ stats s = None)
  /\ (originalFile s = None <-> originalImageUrl s = None)
  /\ Forall fromCompress (waiting cfg).

(** ** A sample run

    In the sample browser: the sample file is chosen, Compress is clicked,
    the timer fires, and the image loads. *)

Definition sample_chosen : Config :=
  after (advance (sample_env (of_Z 0)) (handleImageSelect sample_file)
           (start initial)) [].

Definition sample_clicked : Config :=
  after (advance (sample_env (of_Z 0))
           (handleCompress (state (world sample_chosen)))
           (world sample_chosen))
        (waiting sample_chosen).

Definition sample_timer : Pending :=
  AwaitTimer 1500
    (image <- perform (LoadImage "blob:1") ;; afterImage sample_file image).

Definition sample_loading : Config :=
  after (resume (sample_env (of_Z 0)) sample_timer None (world sample_clicked))
        ([] ++ [])%list.

Definition sample_image : Pending :=
  AwaitImage "blob:1" (fun image => bind (Ret image) (afterImage sample_file)).

Definition sample_done : Config :=
  after (resume (sample_env (of_Z 0)) sample_image (Some (640, 480))
           (world sample_loading))
        ([] ++ [])%list.

End EventLoop.

(** ** [formatBytes]

    Numbers are binary64 here as everywhere: the comparison with zero, the
    division of the two logarithms and [Math.floor] round as the engine
    does.  [Math.log] itself is a built-in which the language only asks to
    approximate the natural logarithm; the helper takes it as the parameter
    [Math_log], a function on doubles.

    The numeric prefix of the result,
    [parseFloat((bytes / Math.pow(k, i)).toFixed(dm))], is not computed: a
    [Quantity] records [bytes], [i] and [dm], from which it is made, next to
    the unit.  [toFixed] throws a RangeError for more than 100 digits.  The
    parameter [decimals] is a whole number, as at every call. *)

Module FormatBytes.

Definition k : number := of_Z 1024.

Definition sizes : list string :=
  ["Bytes"%string; "KB"%string; "MB"%string; "GB"%string].

(** [Math.floor]: the largest integer not above the argument; zeros,
    infinities and NaN are returned unchanged. *)
Definition Math_floor (x : number) : number :=
  match x with
  | S754_finite s m e =>
      if 0 <=? e then x
      else
        let q := cond_Zopp s (Zpos m) / 2 ^ (- e) in
        if q =? 0 then S754_zero s else of_Z q
  | _ => x
  end.

(** The whole number a double stands for, when it stands for one. *)
Definition whole (x : number) : option Z :=
  match x with
  | S754_zero _ => Some 0
  | S754_finite s m e =>
      if 0 <=? e then Some (cond_Zopp s (Zpos m * 2 ^ e))
      else if Zpos m mod 2 ^ (- e) =? 0
           then Some (cond_Zopp s (Zpos m / 2 ^ (- e)))
           else None
  | _ => None
  end.

(** [sizes[i]] for a Number [i]: the element at that position when [i] is a
    whole number inside the array (the key of [-0] is "0"); [None] stands
    for [undefined]. *)
Definition at_index (i : number) : option string :=
  match whole i with
  | Some z => if z <? 0 then None else nth_error sizes (Z.to_nat z)
  | None => None
  end.

Inductive Formatted : Type :=
| Text (s : string)
| Quantity (bytes : number) (i : number) (dm : Z) (unit : option string)
| RangeError.

Section WithLog.

Variable Math_log : number -> number.

(** [Math.floor(Math.log(bytes) / Math.log(k))]. *)
Definition unitIndex (bytes : number) : number :=
  Math_floor (div (Math_log bytes) (Math_log k)).

Definition formatBytes (bytes : number) (decimals : Z) : Formatted :=
  if SFeqb bytes (of_Z 0) then Text "0 Bytes"%string
  else
    let dm := if decimals <? 0 then 0 else decimals in
    let i := unitIndex bytes in
    if 100 <? dm then RangeError
    else Quantity bytes i dm (at_index i).

End WithLog.

(** A finite double that is at least 1. *)
Definition from_one (x : number) : bool :=
  is_double x && nonneg x && leb (of_Z 1) x.

(** What the unit index needs of the engine's logarithm.  From 1 on it
    returns doubles between 0 and 1024 and never decreases;
    [Math.log(1024)] is at least 1; and at the two whole numbers around
    [1024^4] it is accurate enough: as exact values,
    [Math.log(1024^4 - 1) <= (4 - 2^-51) * Math.log(1024)] and
    [4 * Math.log(1024) <= Math.log(1024^4)]. *)
Record log_assumptions (Math_log : number -> number) : Prop := {
  log_range : forall x,
    from_one x = true ->
    is_double (Math_log x) = true /\ nonneg (Math_log x) = true /\
    leb (Math_log x) (of_Z 1024) = true;
  log_monotone : forall x y,
    from_one x = true -> from_one y = true -> leb x y = true ->
    leb (Math_log x) (Math_log y) = true;
  log_k : leb (of_Z 1) (Math_log k) = true;
  log_below :
    units (Math_log (of_Z (1024 ^ 4 - 1))) * 2 ^ 51
    <= (2 ^ 53 - 1) * units (Math_log k);
  log_at : 4 * units (Math_log k) <= units (Math_log (of_Z (1024 ^ 4)))
}.

(** What the choice of the unit below [1024^3] needs on top of that: the
    same accuracy at the whole numbers around [1024], [1024^2] and
    [1024^3].  As exact values, [Math.log(1023) <= (1 - 2^-53) * L],
    [Math.log(1024^2 - 1) <= (2 - 2^-52) * L], [2 * L <= Math.log(1024^2)],
    [Math.log(1024^3 - 1) <= (3 - 2^-51) * L] and
    [(3 - 2^-52) * L < Math.log(1024^3)], where [L] is [Math.log(1024)];
    the last bound is half a unit in the last place below 3, from where
    the quotient rounds to 3. *)
Record log_anchors (Math_log : number -> number) : Prop := {
  log_below_1 :
    units (Math_log (of_Z (1024 - 1))) * 2 ^ 53
    <= (2 ^ 53 - 1) * units (Math_log k);
  log_below_2 :
    units (Math_log (of_Z (1024 ^ 2 - 1))) * 2 ^ 52
    <= (2 ^ 53 - 1) * units (Math_log k);
  log_at_2 : 2 * units (Math_log k) <= units (Math_log (of_Z (1024 ^ 2)));
  log_below_3 :
    units (Math_log (of_Z (1024 ^ 3 - 1))) * 2 ^ 51
    <= (3 * 2 ^ 51 - 1) * units (Math_log k);
  log_at_3 :
    (3 * 2 ^ 52 - 1) * units (Math_log k)
    < units (Math_log (of_Z (1024 ^ 3))) * 2 ^ 52
}.

(** *** A sample logarithm

    The natural logarithm rounded to the nearest double at the whole
    numbers around the powers of 1024.  The double just below [1024^4],
    which is [1024^4 - 2^-13], has the same nearest logarithm as
    [1024^4]. *)

Definition ln_1023 : number := S754_finite false 7803043411358229 (-50).

Definition ln_1024 : number := S754_finite false 7804143460206699 (-50).

Definition ln_1024_2_minus_1 : number :=
  S754_finite false 7804142923335531 (-49).

Definition ln_1024_2 : number := S754_finite false 7804143460206699 (-49).

Definition ln_1024_3_minus_1 : number :=
  S754_finite false 5853107594892880 (-48).

Definition ln_1024_3 : number := S754_finite false 5853107595155024 (-48).

Definition ln_1024_4_minus_1 : number :=
  S754_finite false 7804143460206443 (-48).

Definition ln_1024_4 : number := S754_finite false 7804143460206699 (-48).

Definition just_below_1024_4 : number :=
  S754_finite false 9007199254740991 (-13).

(** A logarithm that takes these values at those arguments and 0 at 1, and
    stays constant in between. *)
Definition sample_log (x : number) : number :=
  if ltb x (of_Z 1023) then of_Z 0
  else if ltb x (of_Z 1024) then ln_1023
  else if ltb x (of_Z (1024 ^ 2 - 1)) then ln_1024
  else if ltb x (of_Z (1024 ^ 2)) then ln_1024_2_minus_1
  else if ltb x (of_Z (1024 ^ 3 - 1)) then ln_1024_2
  else if ltb x (of_Z (1024 ^ 3)) then ln_1024_3_minus_1
  else if ltb x (of_Z (1024 ^ 4 - 1)) then ln_1024_3
  else if ltb x just_below_1024_4 then ln_1024_4_minus_1
  else ln_1024_4.

End FormatBytes.


(** * Properties *)

(** ** Rounding to binary64

    What the rounding procedure of [spec_float] computes, as far as the
    bounds on [35 + Math.random() * 5] and [5 + Math.random() * 5] need
    it. *)

(** [digits2_pos] counts the bits of a positive number. *)
Lemma digits2_pos_spec (p : positive) :
  2 ^ (Zpos (digits2_pos p) - 1) <= Zpos p < 2 ^ Zpos (digits2_pos p).
Proof.
  induction p as [p IH | p IH | ]; cbn [digits2_pos].
  - rewrite Pos2Z.inj_succ, (Pos2Z.inj_xI p).
    replace (Z.succ (Zpos (digits2_pos p)) - 1) with (Z.succ (Zpos (digits2_pos p) - 1)) by lia.
    rewrite !Z.pow_succ_r by lia.
    set (a := 2 ^ (Z.pos (digits2_pos p) - 1)) in *.
    set (b := 2 ^ (Z.pos (digits2_pos p))) in *. lia.
  - rewrite Pos2Z.inj_succ, (Pos2Z.inj_xO p).
    replace (Z.succ (Zpos (digits2_pos p)) - 1) with (Z.succ (Zpos (digits2_pos p) - 1)) by lia.
    rewrite !Z.pow_succ_r by lia.
    set (a := 2 ^ (Z.pos (digits2_pos p) - 1)) in *.
    set (b := 2 ^ (Z.pos (digits2_pos p))) in *. lia.
  - cbn. lia.
Qed.

Lemma digits2_pos_le (p : positive) (k : Z) :
  0 <= k -> Zpos p < 2 ^ k -> Zpos (digits2_pos p) <= k.
Proof.
  intros Hk Hp. destruct (digits2_pos_spec p) as [Hlo _].
  destruct (Z_le_gt_dec (Zpos (digits2_pos p)) k) as [|Hgt]; [assumption|].
  assert (2 ^ k <= 2 ^ (Zpos (digits2_pos p) - 1)) by (apply Z.pow_le_mono_r; lia).
  lia.
Qed.

Lemma digits2_pos_ge (p : positive) (k : Z) :
  0 <= k -> 2 ^ k <= Zpos p -> k + 1 <= Zpos (digits2_pos p).
Proof.
  intros Hk Hp. destruct (digits2_pos_spec p) as [_ Hhi].
  destruct (Z_le_gt_dec (k + 1) (Zpos (digits2_pos p))) as [|Hgt]; [assumption|].
  assert (2 ^ Zpos (digits2_pos p) <= 2 ^ k) by (apply Z.pow_le_mono_r; lia).
  lia.
Qed.

Lemma iter_pos_invariant {A : Type} (f : A -> A) (P : Z -> A -> Prop) :
  (forall k x, 0 <= k -> P k x -> P (k + 1) (f x)) ->
  forall p k x, 0 <= k -> P k x -> P (k + Zpos p) (SpecFloat.iter_pos f p x).
Proof.
  intros step. induction p as [p IH | p IH | ]; intros k x Hk HP; cbn [SpecFloat.iter_pos].
  - replace (k + Zpos p~1) with ((k + 1 + Zpos p) + Zpos p) by lia.
    apply IH; [lia|]. apply IH; [lia|]. now apply step.
  - replace (k + Zpos p~0) with ((k + Zpos p) + Zpos p) by lia.
    apply IH; [lia|]. now apply IH.
  - now apply step.
Qed.

Lemma shr_1_shifted (M n : Z) (mrs : shr_record) :
  0 <= M -> 0 <= n -> shifted M n mrs -> shifted M (n + 1) (shr_1 mrs).
Proof.
  intros HM Hn [Hm Hl].
  assert (HP : 0 < 2 ^ n) by (apply Z.pow_pos_nonneg; lia).
  assert (Hdiv : M / 2 ^ (n + 1) = M / 2 ^ n / 2).
  { rewrite Z.pow_add_r, Z.pow_1_r by lia. rewrite Z.div_div by lia. reflexivity. }
  assert (Hmod : M mod 2 ^ (n + 1) = M mod 2 ^ n + 2 ^ n * ((M / 2 ^ n) mod 2)).
  { rewrite Z.pow_add_r, Z.pow_1_r by lia. apply Z.rem_mul_r; lia. }
  assert (Hpow : 2 ^ (n + 1) = 2 * 2 ^ n).
  { rewrite Z.pow_add_r, Z.pow_1_r by lia. lia. }
  pose proof (Z.mod_pos_bound M (2 ^ n) HP) as Hrho.
  pose proof (Z.div_pos M (2 ^ n) HM HP) as Hq.
  pose proof (Z.div_mod (M / 2 ^ n) 2 ltac:(lia)) as Hq2.
  pose proof (Z.mod_pos_bound (M / 2 ^ n) 2 ltac:(lia)) as Hb.
  unfold shifted. rewrite Hdiv, Hmod, Hpow.
  set (q := M / 2 ^ n) in *. set (rho := M mod 2 ^ n) in *.
  set (P := 2 ^ n) in *. set (b := q mod 2) in *. set (h := q / 2) in *.
  destruct mrs as [m r s]. cbn [shr_m] in Hm. subst m.
  assert (Hrs : orb r s = negb (rho =? 0)).
  { destruct r, s; cbn in Hl |- *; destruct (Z.eqb_spec rho 0);
      try discriminate; reflexivity. }
  assert (Hnew : shr_1 {| shr_m := q; shr_r := r; shr_s := s |} =
                 {| shr_m := h; shr_r := (b =? 1); shr_s := orb r s |}).
  { cbn [shr_1]. destruct q as [|[p|p|]|p]; try lia.
    - replace h with 0 by lia. replace b with 0 by lia. reflexivity.
    - replace h with (Zpos p) by lia. replace b with 1 by lia. reflexivity.
    - replace h with (Zpos p) by lia. replace b with 0 by lia. reflexivity.
    - replace h with 0 by lia. replace b with 1 by lia. reflexivity. }
  rewrite Hnew, Hrs. cbn [shr_m]. split; [reflexivity|].
  destruct (Z.eqb_spec rho 0) as [H0|H0]; cbn [negb];
    destruct (Z.eqb_spec b 1) as [H1|H1]; cbn [loc_of_shr_record];
    destruct (Z.eqb_spec (rho + P * b) 0); try nia;
    destruct (Z.compare_spec (2 * (rho + P * b)) (2 * P)); try reflexivity; nia.
Qed.

Lemma shr_shifted (M E n : Z) :
  0 <= M -> 0 <= n ->
  exists mrs,
    shr {| shr_m := M; shr_r := false; shr_s := false |} E n = (mrs, E + n)
    /\ shifted M n mrs.
Proof.
  intros HM Hn. destruct n as [|p|p]; [| |lia].
  - exists {| shr_m := M; shr_r := false; shr_s := false |}. cbn [shr]. split.
    + now rewrite Z.add_0_r.
    + unfold shifted. cbn. rewrite Z.div_1_r, Z.mod_1_r. split; reflexivity.
  - eexists. cbn [shr]. split; [reflexivity|].
    change (Zpos p) with (0 + Zpos p).
    apply (iter_pos_invariant shr_1 (shifted M)); [|lia|].
    + intros k x Hk. now apply shr_1_shifted.
    + unfold shifted. cbn. rewrite Z.div_1_r, Z.mod_1_r. split; reflexivity.
Qed.

Lemma round_nearest_even_shifted (M n : Z) (mrs : shr_record) :
  0 <= M -> 0 <= n -> shifted M n mrs ->
  (forall K, K * 2 ^ n <= M ->
             K <= round_nearest_even (shr_m mrs) (loc_of_shr_record mrs)) /\
  (forall K, M <= K * 2 ^ n ->
             round_nearest_even (shr_m mrs) (loc_of_shr_record mrs) <= K).
Proof.
  intros HM Hn [Hm Hl].
  assert (HP : 0 < 2 ^ n) by (apply Z.pow_pos_nonneg; lia).
  pose proof (Z.mod_pos_bound M (2 ^ n) HP) as Hrho.
  pose proof (Z.div_mod M (2 ^ n) ltac:(lia)) as HMeq.
  rewrite Hm, Hl.
  set (q := M / 2 ^ n) in *. set (rho := M mod 2 ^ n) in *. set (P := 2 ^ n) in *.
  assert (Hr : q <= round_nearest_even q
                 (if rho =? 0 then loc_Exact else loc_Inexact (2 * rho ?= P))
               <= q + (if rho =? 0 then 0 else 1)).
  { destruct (Z.eqb_spec rho 0); cbn [round_nearest_even]; [lia|].
    destruct (2 * rho ?= P); [destruct (Z.even q)| |]; lia. }
  split; intros K HK; destruct (Z.eqb_spec rho 0); nia.
Qed.

Lemma shr_nonpos (mrs : shr_record) (e n : Z) : n <= 0 -> shr mrs e n = (mrs, e).
Proof. destruct n; [reflexivity | lia | reflexivity]. Qed.

Lemma fexp_eq (x : Z) : fexp prec emax x = Z.max (x - 53) (-1074).
Proof. reflexivity. Qed.


(** The second normalisation of [binary_round_aux]: a rounded mantissa of at
    most 53 bits is kept, and [2^53] is renormalised to [2^52]. *)
Lemma renormalise (m1 e1 : Z) :
  0 <= m1 <= 2 ^ 53 -> -1074 <= e1 <= 0 -> (-1074 < e1 -> 2 ^ 52 <= m1) ->
  exists y,
    (let '(mrs, e) := shr_fexp prec emax m1 e1 loc_Exact in
     match shr_m mrs with
     | 0 => S754_zero false
     | Zpos m => if e <=? emax - prec then S754_finite false m e
                 else S754_infinity false
     | Zneg _ => S754_nan
     end) = y
    /\ is_double y = true /\ nonneg y = true
    /\ units y = m1 * 2 ^ (e1 + 1074).
Proof.
  intros Hm He Hnorm. unfold shr_fexp. cbn [shr_record_of_loc]. rewrite fexp_eq.
  destruct (Z.eq_dec m1 (2 ^ 53)) as [Htop | Htop].
  - (* the mantissa carried into a 54th bit *)
    subst m1. change (Zdigits2 (2 ^ 53)) with 54.
    replace (Z.max (54 + e1 - 53) (-1074) - e1) with 1 by lia.
    cbn [shr SpecFloat.iter_pos]. change (shr_1 _) with
      {| shr_m := 2 ^ 52; shr_r := false; shr_s := false |}.
    cbn [shr_m]. change (2 ^ 52) with (Zpos 4503599627370496) at 1.
    replace (e1 + 1 <=? emax - prec) with true
      by (symmetry; apply Z.leb_le; unfold emax, prec; lia).
    eexists. split; [reflexivity|]. split; [|split; [reflexivity|]].
    + unfold is_double, valid_binary, SpecFloat.bounded, canonical_mantissa.
      rewrite fexp_eq. apply andb_true_intro. split.
      * apply Z.eqb_eq.
        change (Z.pos (digits2_pos 4503599627370496)) with 53. lia.
      * apply Z.leb_le. unfold emax, prec. lia.
    + cbn [units cond_Zopp].
      replace (e1 + 1 + 1074) with (Z.succ (e1 + 1074)) by lia.
      rewrite Z.pow_succ_r by lia.
      change (2 ^ 53) with (2 * Z.pos 4503599627370496). ring.
  - assert (Hlt : m1 < 2 ^ 53) by lia. clear Htop.
    destruct m1 as [|p|p]; [| |lia].
    + cbn [Zdigits2]. rewrite shr_nonpos by lia. cbn [shr_m].
      eexists. repeat split; reflexivity.
    + assert (Hp : Zpos (digits2_pos p) <= 53) by (apply digits2_pos_le; lia).
      cbn [Zdigits2]. rewrite shr_nonpos by lia. cbn [shr_m].
      replace (e1 <=? emax - prec) with true
        by (symmetry; apply Z.leb_le; unfold emax, prec; lia).
      eexists. split; [reflexivity|]. split; [|split; reflexivity].
      unfold is_double, valid_binary, SpecFloat.bounded, canonical_mantissa.
      rewrite fexp_eq. apply andb_true_intro. split.
      * apply Z.eqb_eq.
        destruct (Z_le_gt_dec e1 (-1074)) as [Hsub | Hn]; [lia|].
        assert (53 <= Zpos (digits2_pos p)).
        { apply (digits2_pos_ge p 52); [lia|]. apply Hnorm. lia. }
        lia.
      * apply Z.leb_le. unfold emax, prec. lia.
Qed.

Lemma binary_round_aux_bounds (M : positive) (E : Z) :
  E <= fexp prec emax (Zpos (digits2_pos M) + E) <= 0 ->
  exists y,
    binary_round_aux prec emax false (Zpos M) E loc_Exact = y
    /\ is_double y = true /\ nonneg y = true
    /\ (forall K, K * 2 ^ (- E) <= Zpos M -> K * 2 ^ 1074 <= units y)
    /\ (forall K, Zpos M <= K * 2 ^ (- E) -> units y <= K * 2 ^ 1074).
Proof.
  rewrite fexp_eq. intros [HE He1].
  pose proof (digits2_pos_spec M) as [Hdlo Hdhi].
  unfold binary_round_aux.
  unfold shr_fexp at 1. cbn [Zdigits2 shr_record_of_loc]. rewrite fexp_eq.
  set (d := Zpos (digits2_pos M)) in *.
  set (e1 := Z.max (d + E - 53) (-1074)) in *.
  set (n := e1 - E).
  destruct (shr_shifted (Zpos M) E n) as (mrs & Hshr & Hsh); [lia | lia |].
  destruct (round_nearest_even_shifted (Zpos M) n mrs) as [Hlo Hhi];
    [lia | lia | exact Hsh |].
  rewrite Hshr.
  set (m1 := round_nearest_even (shr_m mrs) (loc_of_shr_record mrs)) in *.
  replace (E + n) with e1 by lia.
  assert (HA : 0 < 2 ^ (- e1)) by (apply Z.pow_pos_nonneg; lia).
  assert (HB : 0 < 2 ^ n) by (apply Z.pow_pos_nonneg; lia).
  assert (HC : 0 < 2 ^ (e1 + 1074)) by (apply Z.pow_pos_nonneg; lia).
  assert (P1 : 2 ^ (- E) = 2 ^ (- e1) * 2 ^ n).
  { rewrite <- Z.pow_add_r by lia. f_equal. lia. }
  assert (P2 : 2 ^ 1074 = 2 ^ (- e1) * 2 ^ (e1 + 1074)).
  { rewrite <- Z.pow_add_r by lia. f_equal. lia. }
  assert (P3 : 2 ^ d <= 2 ^ 53 * 2 ^ n).
  { rewrite <- Z.pow_add_r by lia. apply Z.pow_le_mono_r; lia. }
  assert (P4 : -1074 < e1 -> 2 ^ (d - 1) = 2 ^ 52 * 2 ^ n).
  { intros. rewrite <- Z.pow_add_r by lia. f_equal. lia. }
  assert (H0 : 0 <= m1) by (apply Hlo; lia).
  assert (H53 : m1 <= 2 ^ 53) by (apply Hhi; lia).
  assert (Hnorm : -1074 < e1 -> 2 ^ 52 <= m1).
  { intros Hn. apply Hlo. rewrite <- P4 by assumption. lia. }
  destruct (renormalise m1 e1) as (y & Hy & Hd & Hs & Hu); [lia | lia | exact Hnorm |].
  exists y. split; [exact Hy|]. split; [exact Hd|]. split; [exact Hs|].
  rewrite Hu, P1, P2.
  set (A := 2 ^ (- e1)) in *. set (B := 2 ^ n) in *. set (C := 2 ^ (e1 + 1074)) in *.
  split; intros K HK.
  - assert (K * A <= m1) by (apply Hlo; lia). nia.
  - assert (m1 <= K * A) by (apply Hhi; lia). nia.
Qed.

(** What [is_double] says of a finite datum. *)
Lemma bounded_canonical (m : positive) (e : Z) :
  SpecFloat.bounded prec emax m e = true ->
  -1074 <= e <= 971 /\ Zpos (digits2_pos m) <= 53 /\
  (-1074 < e -> 2 ^ 52 <= Zpos m).
Proof.
  unfold SpecFloat.bounded, canonical_mantissa. rewrite fexp_eq. intros H.
  apply andb_prop in H. destruct H as [Hc He].
  apply Z.eqb_eq in Hc. apply Z.leb_le in He. unfold emax, prec in He.
  split; [lia|]. split; [lia|]. intros Hn.
  destruct (digits2_pos_spec m) as [Hlo _].
  replace (Zpos (digits2_pos m)) with 53 in Hlo by lia. exact Hlo.
Qed.

Lemma bounded_lt_pow (m : positive) (e : Z) :
  SpecFloat.bounded prec emax m e = true -> Zpos m < 2 ^ 53.
Proof.
  intros H. destruct (bounded_canonical m e H) as (_ & Hd & _).
  destruct (digits2_pos_spec m) as [_ Hhi].
  assert (2 ^ Zpos (digits2_pos m) <= 2 ^ 53) by (apply Z.pow_le_mono_r; lia).
  lia.
Qed.

(** A double below [2^k] has an exponent of at most [k - 53]. *)
Lemma exponent_bound (m : positive) (e k : Z) :
  SpecFloat.bounded prec emax m e = true -> -1021 <= k ->
  Zpos m * 2 ^ (e + 1074) < 2 ^ (k + 1074) -> e <= k - 53.
Proof.
  intros Hb Hk Hlt. destruct (bounded_canonical m e Hb) as (He & _ & Hn).
  destruct (Z_le_gt_dec e (k - 53)) as [|Hgt]; [assumption|].
  assert (H52 : 2 ^ 52 <= Zpos m) by (apply Hn; lia).
  assert (Hp : 2 ^ (k + 1074) <= 2 ^ 52 * 2 ^ (e + 1074)).
  { rewrite <- Z.pow_add_r by lia. apply Z.pow_le_mono_r; lia. }
  assert (0 < 2 ^ (e + 1074)) by (apply Z.pow_pos_nonneg; lia).
  set (C := 2 ^ (e + 1074)) in *. set (T := 2 ^ (k + 1074)) in *. nia.
Qed.

(** On doubles that are not negative, the comparison orders the values. *)
Lemma SFcompare_units (x y : number) :
  is_double x = true -> nonneg x = true ->
  is_double y = true -> nonneg y = true ->
  SFcompare x y = Some (units x ?= units y).
Proof.
  intros Hx Nx Hy Ny.
  destruct x as [sx | sx | | sx mx ex]; try discriminate;
    destruct y as [sy | sy | | sy my ey]; try discriminate;
    try (destruct sx; try discriminate); try (destruct sy; try discriminate);
    cbn [SFcompare units cond_Zopp]; try reflexivity.
  - assert (0 < 2 ^ (ey + 1074)).
    { apply Z.pow_pos_nonneg; [lia|]. destruct (bounded_canonical my ey Hy). lia. }
    symmetry. f_equal. apply Z.compare_lt_iff. nia.
  - assert (0 < 2 ^ (ey + 1074)).
    { apply Z.pow_pos_nonneg; [lia|]. destruct (bounded_canonical my ey Hy). lia. }
    symmetry. f_equal. apply Z.compare_lt_iff. nia.
  - assert (0 < 2 ^ (ex + 1074)).
    { apply Z.pow_pos_nonneg; [lia|]. destruct (bounded_canonical mx ex Hx). lia. }
    symmetry. f_equal. apply Z.compare_gt_iff. nia.
  - assert (0 < 2 ^ (ex + 1074)).
    { apply Z.pow_pos_nonneg; [lia|]. destruct (bounded_canonical mx ex Hx). lia. }
    symmetry. f_equal. apply Z.compare_gt_iff. nia.
  - cbn [is_double valid_binary] in Hx, Hy.
    destruct (bounded_canonical mx ex Hx) as (Hex & _ & Hnx).
    destruct (bounded_canonical my ey Hy) as (Hey & _ & Hny).
    pose proof (bounded_lt_pow mx ex Hx) as Hmx.
    pose proof (bounded_lt_pow my ey Hy) as Hmy.
    assert (HCx : 0 < 2 ^ (ex + 1074)) by (apply Z.pow_pos_nonneg; lia).
    assert (HCy : 0 < 2 ^ (ey + 1074)) by (apply Z.pow_pos_nonneg; lia).
    f_equal. symmetry.
    destruct (Z.compare_spec ex ey) as [Heq | Hlt | Hgt].
    + subst ey. rewrite Pos.compare_cont_spec. cbn [Pos.switch_Eq].
      change (mx ?= my)%positive with (Zpos mx ?= Zpos my).
      set (C := 2 ^ (ex + 1074)) in *.
      destruct (Z.compare_spec (Zpos mx) (Zpos my)) as [H | H | H].
      * rewrite H. apply Z.compare_refl.
      * apply Z.compare_lt_iff. nia.
      * apply Z.compare_gt_iff. nia.
    + apply Z.compare_lt_iff.
      assert (H52 : 2 ^ 52 <= Zpos my) by (apply Hny; lia).
      assert (Hp : 2 * 2 ^ (ex + 1074) <= 2 ^ (ey + 1074)).
      { rewrite <- Z.pow_succ_r by lia. apply Z.pow_le_mono_r; lia. }
      change (2 ^ 53) with (2 * 2 ^ 52) in Hmx.
      set (Cx := 2 ^ (ex + 1074)) in *. set (Cy := 2 ^ (ey + 1074)) in *.
      set (c52 := 2 ^ 52) in *.
      assert (Zpos mx * Cx < 2 * c52 * Cx) by nia.
      assert (c52 * (2 * Cx) <= c52 * Cy) by nia.
      assert (c52 * Cy <= Zpos my * Cy) by nia. lia.
    + apply Z.compare_gt_iff.
      assert (H52 : 2 ^ 52 <= Zpos mx) by (apply Hnx; lia).
      assert (Hp : 2 * 2 ^ (ey + 1074) <= 2 ^ (ex + 1074)).
      { rewrite <- Z.pow_succ_r by lia. apply Z.pow_le_mono_r; lia. }
      change (2 ^ 53) with (2 * 2 ^ 52) in Hmy.
      set (Cx := 2 ^ (ex + 1074)) in *. set (Cy := 2 ^ (ey + 1074)) in *.
      set (c52 := 2 ^ 52) in *.
      assert (Zpos my * Cy < 2 * c52 * Cy) by nia.
      assert (c52 * (2 * Cy) <= c52 * Cx) by nia.
      assert (c52 * Cx <= Zpos mx * Cx) by nia. lia.
Qed.

Lemma iter_xO (m d : positive) : Zpos (Pos.iter xO m d) = Zpos m * 2 ^ Zpos d.
Proof.
  induction d as [|d IH] using Pos.peano_ind.
  - cbn [Pos.iter]. rewrite Z.pow_1_r. lia.
  - rewrite Pos.iter_succ, Pos2Z.inj_succ, Z.pow_succ_r by lia.
    rewrite (Pos2Z.inj_xO (Pos.iter xO m d)), IH. ring.
Qed.

Lemma shl_align_le (mx : positive) (ex ex' : Z) :
  ex' <= ex ->
  snd (shl_align mx ex ex') = ex' /\
  Zpos (fst (shl_align mx ex ex')) = Zpos mx * 2 ^ (ex - ex').
Proof.
  intros H. unfold shl_align. destruct (ex' - ex) as [|d|d] eqn:Hd; try lia.
  - replace ex' with ex by lia. cbn [fst snd]. rewrite Z.sub_diag. cbn. lia.
  - cbn [fst snd]. split; [reflexivity|]. rewrite iter_xO. f_equal. f_equal. lia.
Qed.

Lemma shl_align_ge (mx : positive) (ex ex' : Z) :
  ex <= ex' -> shl_align mx ex ex' = (mx, ex).
Proof.
  intros H. unfold shl_align. destruct (ex' - ex) eqn:Hd; try reflexivity. lia.
Qed.

(** [r * 5] for a random draw [r]: a double between 0 and 5. *)
Lemma mul_5_bounds (r : number) :
  in_unit_interval r = true ->
  exists y, mul r (of_Z 5) = y /\ is_double y = true /\ nonneg y = true
            /\ units y <= 5 * 2 ^ 1074.
Proof.
  unfold in_unit_interval. intros H.
  apply andb_prop in H. destruct H as [H Hlt]. apply andb_prop in H.
  destruct H as [Hd Hle].
  change (of_Z 5) with (S754_finite false 5629499534213120 (-50)).
  destruct r as [s | s | | s m e].
  - exists (S754_zero (xorb s false)). repeat split; cbn; lia.
  - destruct s; discriminate.
  - discriminate.
  - destruct s; [discriminate|].
    cbn [is_double valid_binary] in Hd.
    assert (Hu : Zpos m * 2 ^ (e + 1074) < 2 ^ (0 + 1074)).
    { unfold ltb, SFltb in Hlt.
      rewrite (SFcompare_units (S754_finite false m e) (of_Z 1)) in Hlt
        by (try exact Hd; reflexivity).
      cbn [units cond_Zopp] in Hlt.
      destruct (Z.compare_spec (Zpos m * 2 ^ (e + 1074)) (units (of_Z 1)))
        as [? | Hc | ?]; try discriminate. exact Hc. }
    pose proof (exponent_bound m e 0 Hd ltac:(lia) Hu) as He.
    destruct (bounded_canonical m e Hd) as (Hex & _ & _).
    pose proof (bounded_lt_pow m e Hd) as Hm.
    unfold mul, SFmul. cbn [xorb].
    set (M := (m * 5629499534213120)%positive).
    assert (HM : Zpos M = Zpos m * (5 * 2 ^ 50)) by (unfold M; lia).
    destruct (digits2_pos_spec M) as [Hdlo Hdhi].
    assert (Hd1 : 53 <= Zpos (digits2_pos M)).
    { apply (digits2_pos_ge M 52); [lia|]. rewrite HM. lia. }
    assert (Hd2 : Zpos (digits2_pos M) <= 106).
    { apply digits2_pos_le; [lia|]. rewrite HM.
      change (2 ^ 106) with (2 ^ 53 * 2 ^ 53). nia. }
    destruct (binary_round_aux_bounds M (e + -50)) as (y & Hy & Hyd & Hyn & _ & Hhi).
    { rewrite fexp_eq. lia. }
    exists y. split; [exact Hy|]. split; [exact Hyd|]. split; [exact Hyn|].
    apply Hhi. rewrite HM.
    replace (- (e + -50)) with (50 + (- 53 - e) + 53) by lia.
    rewrite !Z.pow_add_r by lia.
    assert (0 < 2 ^ (- 53 - e)) by (apply Z.pow_pos_nonneg; lia).
    set (c50 := 2 ^ 50) in *. set (c53 := 2 ^ 53) in *. set (X := 2 ^ (-53 - e)) in *.
    assert (0 < c50) by (unfold c50; lia). nia.
Qed.

(** Adding a double in [[0, b]] to the whole number [c], itself a double
    [mx * 2^ex]: the sum is a double between [c] and [c + b]. *)
Lemma add_bounds (mx : positive) (ex c b : Z) (y : number) :
  SpecFloat.bounded prec emax mx ex = true -> 2 ^ 52 <= Zpos mx -> ex <= 0 ->
  Zpos mx = c * 2 ^ (- ex) ->
  0 <= b < 2 ^ (ex + 53) -> c + b <= 2 ^ 52 ->
  is_double y = true -> nonneg y = true -> units y <= b * 2 ^ 1074 ->
  exists z,
    add (S754_finite false mx ex) y = z /\ is_double z = true /\ nonneg z = true
    /\ c * 2 ^ 1074 <= units z <= (c + b) * 2 ^ 1074.
Proof.
  intros Hx H52 Hex Hc Hb Hcb Hy Ny Uy.
  destruct (bounded_canonical mx ex Hx) as (Hex' & _ & _).
  assert (HT : 2 ^ 1074 = 2 ^ (- ex) * 2 ^ (ex + 1074)).
  { rewrite <- Z.pow_add_r by lia. f_equal. lia. }
  assert (HX : 0 < 2 ^ (ex + 1074)) by (apply Z.pow_pos_nonneg; lia).
  assert (HX' : 0 < 2 ^ (- ex)) by (apply Z.pow_pos_nonneg; lia).
  assert (Ux : units (S754_finite false mx ex) = c * 2 ^ 1074).
  { cbn [units cond_Zopp]. rewrite Hc, HT. ring. }
  assert (H1074 : 0 < 2 ^ 1074) by (apply Z.pow_pos_nonneg; lia).
  destruct y as [sy | sy | | sy my ey]; try discriminate.
  - exists (S754_finite false mx ex). split; [reflexivity|].
    split; [exact Hx|]. split; [reflexivity|]. rewrite Ux. nia.
  - destruct sy; [discriminate|]. cbn [is_double valid_binary] in Hy.
    cbn [units cond_Zopp] in Uy.
    destruct (bounded_canonical my ey Hy) as (Hey & _ & _).
    assert (Hex53 : 0 <= ex + 53).
    { destruct (Z_lt_le_dec (ex + 53) 0) as [Hneg|]; [|assumption].
      rewrite (Z.pow_neg_r 2 (ex + 53)) in Hb by exact Hneg. lia. }
    assert (Hee : ey <= ex).
    { replace ex with (ex + 53 - 53) by lia.
      apply (exponent_bound my ey (ex + 53) Hy); [lia|].
      rewrite (Z.pow_add_r 2 (ex + 53) 1074) by lia.
      set (T := 2 ^ 1074) in *. set (Q := 2 ^ (ex + 53)) in *. nia. }
    assert (HY : 0 < 2 ^ (ey + 1074)) by (apply Z.pow_pos_nonneg; lia).
    assert (HY' : 0 < 2 ^ (- ey)) by (apply Z.pow_pos_nonneg; lia).
    assert (HT' : 2 ^ 1074 = 2 ^ (- ey) * 2 ^ (ey + 1074)).
    { rewrite <- Z.pow_add_r by lia. f_equal. lia. }
    assert (Hmy : Zpos my <= b * 2 ^ (- ey)).
    { rewrite HT' in Uy. nia. }
    assert (Hsplit : 2 ^ (- ey) = 2 ^ (- ex) * 2 ^ (ex - ey)).
    { rewrite <- Z.pow_add_r by lia. f_equal. lia. }
    unfold add, SFadd. rewrite Z.min_r by exact Hee.
    rewrite (shl_align_ge my ey ey) by lia.
    destruct (shl_align_le mx ex ey Hee) as [_ Hal].
    cbn [cond_Zopp fst].
    set (a := fst (shl_align mx ex ey)) in *.
    change (Zpos a + Zpos my) with (Zpos (a + my)).
    set (S := (a + my)%positive).
    assert (HS : Zpos S = c * 2 ^ (- ey) + Zpos my).
    { unfold S. rewrite Pos2Z.inj_add, Hal, Hc, Hsplit. ring. }
    assert (HSlo : c * 2 ^ (- ey) <= Zpos S) by lia.
    assert (HShi : Zpos S <= (c + b) * 2 ^ (- ey)) by lia.
    assert (Hd1 : 53 <= Zpos (digits2_pos S)).
    { apply (digits2_pos_ge S 52); [lia|].
      assert (1 <= 2 ^ (ex - ey)) by (apply Z.lt_pred_le, Z.pow_pos_nonneg; lia).
      rewrite HS, Hsplit, Z.mul_assoc, <- Hc. nia. }
    assert (Hd2 : Zpos (digits2_pos S) <= 53 - ey).
    { apply digits2_pos_le; [lia|].
      replace (53 - ey) with (1 + 52 + (- ey)) by lia.
      rewrite !Z.pow_add_r, Z.pow_1_r by lia.
      set (c52 := 2 ^ 52) in *. set (Y := 2 ^ (- ey)) in *. nia. }
    cbn [binary_normalize]. unfold binary_round.
    rewrite shl_align_ge by (rewrite fexp_eq; lia).
    destruct (binary_round_aux_bounds S ey) as (z & Hz & Hzd & Hzn & Hlo & Hhi).
    { rewrite fexp_eq. lia. }
    exists z. split; [exact Hz|]. split; [exact Hzd|]. split; [exact Hzn|].
    split; [apply Hlo | apply Hhi]; assumption.
Qed.

Lemma leb_units (x y : number) :
  is_double x = true -> nonneg x = true ->
  is_double y = true -> nonneg y = true ->
  units x <= units y -> leb x y = true.
Proof.
  intros Hx Nx Hy Ny H. unfold leb, SFleb.
  rewrite (SFcompare_units x y Hx Nx Hy Ny).
  destruct (Z.compare_spec (units x) (units y)); try reflexivity. lia.
Qed.

Lemma units_of_Z_const (c : Z) :
  c = 5 \/ c = 10 \/ c = 35 \/ c = 40 ->
  is_double (of_Z c) = true /\ nonneg (of_Z c) = true /\
  units (of_Z c) = c * 2 ^ 1074.
Proof.
  intros [-> | [-> | [-> | ->]]]; repeat split; vm_compute; reflexivity.
Qed.

(** [c + r * 5] for the whole numbers [c = 35] and [c = 5]: the sum is a
    double between [c] and [c + 5], both included. *)
Lemma mock_metric_bounds (c : Z) (r : number) :
  c = 35 \/ c = 5 -> in_unit_interval r = true ->
  leb (of_Z c) (of_Z c + r * of_Z 5)%js = true /\
  leb (of_Z c + r * of_Z 5)%js (of_Z (c + 5)) = true.
Proof.
  intros Hc Hr.
  destruct (mul_5_bounds r Hr) as (y & Hmul & Hy & Ny & Uy).
  rewrite Hmul. clear Hmul Hr r.
  assert (H : exists z, add (of_Z c) y = z /\ is_double z = true
                        /\ nonneg z = true
                        /\ c * 2 ^ 1074 <= units z <= (c + 5) * 2 ^ 1074).
  { destruct Hc as [-> | ->].
    - change (of_Z 35) with (S754_finite false 4925812092436480 (-47)).
      apply (add_bounds 4925812092436480 (-47) 35 5 y);
        [ reflexivity | vm_compute; discriminate | lia | reflexivity
        | split; [lia | reflexivity] | vm_compute; discriminate
        | exact Hy | exact Ny | exact Uy ].
    - change (of_Z 5) with (S754_finite false 5629499534213120 (-50)).
      apply (add_bounds 5629499534213120 (-50) 5 5 y);
        [ reflexivity | vm_compute; discriminate | lia | reflexivity
        | split; [lia | reflexivity] | vm_compute; discriminate
        | exact Hy | exact Ny | exact Uy ]. }
  destruct H as (z & Hadd & Hz & Nz & Hlo & Hhi). rewrite Hadd.
  destruct (units_of_Z_const c) as (Dc & Nc & Uc); [tauto|].
  destruct (units_of_Z_const (c + 5)) as (Dc' & Nc' & Uc'); [lia|].
  split; apply leb_units; try assumption.
  - rewrite Uc. exact Hlo.
  - rewrite Uc'. exact Hhi.
Qed.

(** ** The handlers, run by run *)

Import App.
Local Open Scope string_scope.

Ltac run_handler :=
  cbn -[add sub mul div of_Z Math_round JsString.length lit_0_7 sizeOfDataUrl
        downloadName JsString.startsWith];
  unfold update, log, start;
  cbn -[add sub mul div of_Z Math_round JsString.length lit_0_7 sizeOfDataUrl
        downloadName JsString.startsWith].

(** The four ways [handleCompress] can go. *)
Lemma exec_handleCompress_completed env s url file width height :
  originalImageUrl s = Some url -> JsString.truthy (Some url) = true ->
  originalFile s = Some file ->
  decode env url = Some (width, height) -> context2d env = true ->
  exec env (handleCompress s) s = completed env s url file width height.
Proof.
  intros Hu Ht Hf Hd Hc. unfold exec, handleCompress, completed.
  rewrite Hu, Hf. destruct url as [|c u]; [discriminate|].
  run_handler. rewrite Hd. run_handler. rewrite Hc. run_handler.
  rewrite ?Hu, ?Hf. reflexivity.
Qed.

Lemma exec_handleCompress_no_context env s url file width height :
  originalImageUrl s = Some url -> JsString.truthy (Some url) = true ->
  originalFile s = Some file ->
  decode env url = Some (width, height) -> context2d env = false ->
  exec env (handleCompress s) s =
  failed s "Could not process image." (width, height)
    [Act (SetStatus compressing); Act (Sleep 1500); Act (LoadImage url);
     Act (CreateCanvas width height); Act (GetContext "2d");
     Act (SetError (Some "Could not process image."));
     Act (SetStatus image_loaded)].
Proof.
  intros Hu Ht Hf Hd Hc. unfold exec, handleCompress, failed.
  rewrite Hu, Hf. destruct url as [|c u]; [discriminate|].
  run_handler. rewrite Hd. run_handler. rewrite Hc. run_handler.
  rewrite ?Hu, ?Hf. reflexivity.
Qed.

Lemma exec_handleCompress_decode_failed env s url file :
  originalImageUrl s = Some url -> JsString.truthy (Some url) = true ->
  originalFile s = Some file -> decode env url = None ->
  exec env (handleCompress s) s =
  failed s "Could not load image for processing." (0, 0)
    [Act (SetStatus compressing); Act (Sleep 1500); Act (LoadImage url);
     Act (SetError (Some "Could not load image for processing."));
     Act (SetStatus image_loaded)].
Proof.
  intros Hu Ht Hf Hd. unfold exec, handleCompress, failed.
  rewrite Hu, Hf. destruct url as [|c u]; [discriminate|].
  run_handler. rewrite Hd. run_handler.
  rewrite ?Hu, ?Hf. reflexivity.
Qed.

Lemma exec_handleCompress_not_ready env s :
  JsString.truthy (originalImageUrl s) = false \/ originalFile s = None ->
  exec env (handleCompress s) s = start s.
Proof.
  unfold exec, handleCompress.
  destruct (originalImageUrl s) as [[|c u]|]; destruct (originalFile s);
    intros [H | H]; try discriminate; reflexivity.
Qed.

(** C1: every compression run that ends with status 'done' has produced a
    stats object whose [reductionPercentage] is
    [(1 - compressedSize / originalSize) * 100], where [originalSize] is the
    size of the selected file and [compressedSize] is the size computed from
    the JPEG data URL that the canvas produced (and that is stored as the
    compressed image). *)
Theorem compress_done_stats env s url file :
  originalImageUrl s = Some url -> JsString.truthy (Some url) = true ->
  originalFile s = Some file ->
  let w := exec env (handleCompress s) s in
  status (state w) = done ->
  exists width height dataUrl st,
    decode env url = Some (width, height) /\ context2d env = true /\
    dataUrl = dataURL env width height "image/jpeg" lit_0_7 /\
    compressedImageUrl (state w) = Some dataUrl /\
    stats (state w) = Some st /\
    originalSize st = size file /\
    compressedSize st = sizeOfDataUrl dataUrl /\
    reductionPercentage st =
      ((of_Z 1 - compressedSize st / originalSize st) * of_Z 100)%js.
Proof.
  intros Hu Ht Hf w. subst w.
  destruct (decode env url) as [[width height]|] eqn:Hd.
  - destruct (context2d env) eqn:Hc.
    + rewrite (exec_handleCompress_completed env s url file width height)
        by assumption.
      intros _. exists width, height. eexists. eexists.
      repeat split; reflexivity.
    + rewrite (exec_handleCompress_no_context env s url file width height)
        by assumption.
      discriminate.
  - rewrite (exec_handleCompress_decode_failed env s url file) by assumption.
    discriminate.
Qed.

Lemma compress_done_stats_witness :
  exists width height dataUrl st,
    decode (sample_env (of_Z 0)) "blob:1" = Some (width, height) /\
    context2d (sample_env (of_Z 0)) = true /\
    dataUrl = dataURL (sample_env (of_Z 0)) width height "image/jpeg" lit_0_7 /\
    compressedImageUrl
      (state (exec (sample_env (of_Z 0)) (handleCompress sample_state)
                sample_state)) = Some dataUrl /\
    stats
      (state (exec (sample_env (of_Z 0)) (handleCompress sample_state)
                sample_state)) = Some st /\
    originalSize st = size sample_file /\
    compressedSize st = sizeOfDataUrl dataUrl /\
    reductionPercentage st =
      ((of_Z 1 - compressedSize st / originalSize st) * of_Z 100)%js.
Proof.
  apply (compress_done_stats (sample_env (of_Z 0)) sample_state "blob:1"
           sample_file); reflexivity.
Defined.

(** C2: with an image loaded, a compression that goes through makes
    exactly these calls to the browser, in this order: a 1500 ms wait, the
    load of the source image, the creation of a canvas of the image's own
    width and height, the request of its 2D context, the drawing of the
    image at the origin, the re-encoding as JPEG at quality 0.7, and two
    calls of [Math.random].  The [psnr] and [mse] of the stats are
    [35 + r1 * 5] and [5 + r2 * 5] for the two random numbers: nothing of the
    image enters them. *)
Theorem compress_steps env s url file width height :
  originalImageUrl s = Some url -> JsString.truthy (Some url) = true ->
  originalFile s = Some file ->
  decode env url = Some (width, height) -> context2d env = true ->
  let w := exec env (handleCompress s) s in
  filter external (trace w) =
    [Act (Sleep 1500); Act (LoadImage url); Act (CreateCanvas width height);
     Act (GetContext "2d"); Act (DrawImage 0 0);
     Act (ToDataURL "image/jpeg" lit_0_7); Act MathRandom; Act MathRandom]
  /\ status (state w) = done
  /\ option_map psnr (stats (state w)) = Some (of_Z 35 + random env 0 * of_Z 5)%js
  /\ option_map mse (stats (state w)) = Some (of_Z 5 + random env 1 * of_Z 5)%js.
Proof.
  intros Hu Ht Hf Hd Hc w. subst w.
  rewrite (exec_handleCompress_completed env s url file width height)
    by assumption.
  repeat split; reflexivity.
Qed.

Lemma compress_steps_witness :
  filter external
    (trace (exec (sample_env (of_Z 0)) (handleCompress sample_state)
              sample_state)) =
    [Act (Sleep 1500); Act (LoadImage "blob:1"); Act (CreateCanvas 640 480);
     Act (GetContext "2d"); Act (DrawImage 0 0);
     Act (ToDataURL "image/jpeg" lit_0_7); Act MathRandom; Act MathRandom].
Proof.
  apply (compress_steps (sample_env (of_Z 0)) sample_state "blob:1"
           sample_file 640 480); reflexivity.
Defined.

(** C3: selecting a file whose MIME type does not start with 'image/'
    sets the error string and changes nothing else: status, originalFile,
    originalImageUrl, compressedImageUrl and stats keep their values. *)
Theorem select_rejects_non_image env s file :
  JsString.startsWith (type file) "image/" = false ->
  let w := exec env (handleImageSelect file) s in
  error (state w) = Some "Please select a valid image file (JPEG or PNG)."
  /\ status (state w) = status s
  /\ originalFile (state w) = originalFile s
  /\ originalImageUrl (state w) = originalImageUrl s
  /\ compressedImageUrl (state w) = compressedImageUrl s
  /\ stats (state w) = stats s.
Proof.
  intros H w. subst w. unfold exec, handleImageSelect. rewrite H.
  run_handler. repeat split; reflexivity.
Qed.

Lemma select_rejects_non_image_witness :
  error (state (exec (sample_env (of_Z 0))
                  (handleImageSelect
                     {| name := "notes.txt"; type := "text/plain";
                        size := of_Z 12 |})
                  sample_state))
  = Some "Please select a valid image file (JPEG or PNG).".
Proof.
  apply (select_rejects_non_image (sample_env (of_Z 0)) sample_state
           {| name := "notes.txt"; type := "text/plain"; size := of_Z 12 |}).
  reflexivity.
Defined.

(** C4: when the image fails to load or the canvas gives no 2D context,
    one error string is set, the image load was started once and not again,
    the status is 'image-loaded', and originalFile, originalImageUrl,
    compressedImageUrl and stats are as they were: no compressed image and
    no stats are produced. *)
Theorem compress_failure env s url file :
  originalImageUrl s = Some url -> JsString.truthy (Some url) = true ->
  originalFile s = Some file ->
  decode env url = None \/ context2d env = false ->
  let w := exec env (handleCompress s) s in
  (error (state w) = Some "Could not process image." \/
   error (state w) = Some "Could not load image for processing.")
  /\ status (state w) = image_loaded
  /\ originalFile (state w) = originalFile s
  /\ originalImageUrl (state w) = originalImageUrl s
  /\ compressedImageUrl (state w) = compressedImageUrl s
  /\ stats (state w) = stats s
  /\ attempts (trace w) = 1%nat.
Proof.
  intros Hu Ht Hf Hfail w. subst w.
  destruct (decode env url) as [[width height]|] eqn:Hd.
  - destruct Hfail as [? | Hc]; [discriminate|].
    rewrite (exec_handleCompress_no_context env s url file width height)
      by assumption.
    repeat split; try reflexivity. now left.
  - rewrite (exec_handleCompress_decode_failed env s url file) by assumption.
    repeat split; try reflexivity. now right.
Qed.

Lemma compress_failure_witness :
  status
    (state (exec {| objectURL := fun _ => "blob:1"; decode := fun _ => None;
                    context2d := true; dataURL := fun _ _ _ _ => "data:,";
                    random := fun _ => of_Z 0 |}
              (handleCompress sample_state) sample_state)) = image_loaded.
Proof.
  apply (compress_failure
           {| objectURL := fun _ => "blob:1"; decode := fun _ => None;
              context2d := true; dataURL := fun _ _ _ _ => "data:,";
              random := fun _ => of_Z 0 |}
           sample_state "blob:1" sample_file); try reflexivity.
  left. reflexivity.
Defined.

(** C5: from any state, 'New Image' puts every cell back to its initial
    value: status 'idle', and originalFile, originalImageUrl,
    compressedImageUrl, stats and error all null. *)
Theorem clear_resets env s : state (exec env (handleClear s) s) = initial.
Proof.
  unfold exec, handleClear, revokeIfSet.
  destruct (originalImageUrl s) as [[|c u]|];
    destruct (compressedImageUrl s) as [[|c' u']|]; reflexivity.
Qed.

(** C6: selecting a file whose MIME type starts with 'image/' sets the
    status to 'image-loaded', records the file and the object URL created
    for it, clears the error, and resets compressedImageUrl and stats to
    null. *)
Theorem select_accepts_image env s file :
  JsString.startsWith (type file) "image/" = true ->
  let w := exec env (handleImageSelect file) s in
  status (state w) = image_loaded
  /\ originalFile (state w) = Some file
  /\ originalImageUrl (state w) = Some (objectURL env file)
  /\ error (state w) = None
  /\ compressedImageUrl (state w) = None
  /\ stats (state w) = None.
Proof.
  intros H w. subst w. unfold exec, handleImageSelect. rewrite H.
  run_handler. repeat split; reflexivity.
Qed.

Lemma select_accepts_image_witness :
  status (state (exec (sample_env (of_Z 0)) (handleImageSelect sample_file)
                   initial)) = image_loaded.
Proof.
  apply (select_accepts_image (sample_env (of_Z 0)) initial sample_file).
  reflexivity.
Defined.

(** ** The download name *)

Lemma hd_split_no_separator c s :
  JsString.free_of c s = true -> JsString.split c s = [s].
Proof.
  induction s as [|a s IH]; cbn [JsString.free_of JsString.split]; intros H.
  - reflexivity.
  - apply andb_prop in H. destruct H as [Ha Hs].
    apply negb_true_iff in Ha. rewrite Ha, (IH Hs). reflexivity.
Qed.

Lemma hd_split_first_segment c base rest :
  JsString.free_of c base = true ->
  hd EmptyString (JsString.split c (base ++ String c rest)) = base.
Proof.
  induction base as [|a base IH]; cbn [JsString.free_of JsString.split append];
    intros H.
  - rewrite Ascii.eqb_refl. reflexivity.
  - apply andb_prop in H. destruct H as [Ha Hs].
    apply negb_true_iff in Ha. rewrite Ha. specialize (IH Hs).
    destruct (JsString.split c (base ++ String c rest)) as [|h t].
    + cbn in IH. subst base. reflexivity.
    + cbn in IH |- *. now subst h.
Qed.

(** C7, as the code has it: the download is a link to the compressed data
    URL, named 'compressed_<basename>.jpg', where <basename> is the part of
    the file's name before its first '.', and 'image' when that part is
    empty or no file is recorded.  In particular a name 'name.ext' whose
    [name] is not empty and has no '.' gives 'compressed_name.jpg'. *)
Theorem download_name_first_segment env s url :
  compressedImageUrl s = Some url -> JsString.truthy (Some url) = true ->
  let w := exec env (handleDownload s) s in
  trace w = [Act (ClickLink url (downloadName (originalFile s)))]
  /\ state w = s
  /\ (originalFile s = None -> downloadName (originalFile s) = "compressed_image.jpg")
  /\ (forall f base rest,
        originalFile s = Some f -> JsString.free_of "." base = true ->
        name f = base ++ "." ++ rest \/ name f = base ->
        downloadName (originalFile s) =
          "compressed_" ++ JsString.or_else (Some base) "image" ++ ".jpg")
  /\ (forall f base ext,
        originalFile s = Some f -> JsString.free_of "." base = true ->
        base <> "" -> name f = base ++ "." ++ ext ->
        downloadName (originalFile s) = "compressed_" ++ base ++ ".jpg").
Proof.
  intros Hu Ht w. subst w.
  assert (Hseg : forall f base rest,
        originalFile s = Some f -> JsString.free_of "." base = true ->
        name f = base ++ "." ++ rest \/ name f = base ->
        downloadName (originalFile s) =
          "compressed_" ++ JsString.or_else (Some base) "image" ++ ".jpg").
  { intros f base rest Hf Hfree Hname. rewrite Hf. unfold downloadName.
    destruct Hname as [-> | ->].
    - change ("." ++ rest) with (String "." rest).
      now rewrite hd_split_first_segment.
    - now rewrite hd_split_no_separator. }
  split; [|split; [|split; [|split]]].
  - unfold exec, handleDownload. rewrite Hu.
    destruct url as [|c u]; [discriminate|]. reflexivity.
  - unfold exec, handleDownload. rewrite Hu.
    destruct url as [|c u]; [discriminate|]. reflexivity.
  - intros ->. reflexivity.
  - exact Hseg.
  - intros f base ext Hf Hfree Hne Hname.
    rewrite (Hseg f base ext Hf Hfree (or_introl Hname)).
    destruct base; [contradiction|reflexivity].
Qed.

Lemma download_name_first_segment_witness :
  trace (exec (sample_env (of_Z 0))
           (handleDownload (completed_state_of_sample))
           (completed_state_of_sample))
  = [Act (ClickLink "data:image/jpeg;base64,AAAAAAAAAAAA" "compressed_photo.jpg")].
Proof.
  apply (download_name_first_segment (sample_env (of_Z 0))
           completed_state_of_sample "data:image/jpeg;base64,AAAAAAAAAAAA");
    reflexivity.
Defined.

(** C7, as stated, fails: for the file name 'my.photo.png', that is
    'name.ext' with name 'my.photo', the download is named
    'compressed_my.jpg' and not 'compressed_my.photo.jpg'. *)
Lemma download_name_drops_inner_dots :
  let f := {| name := "my.photo" ++ "." ++ "png"; type := "image/png";
              size := of_Z 2000 |} in
  let s := {| status := done; originalFile := Some f;
              originalImageUrl := Some "blob:1";
              compressedImageUrl := Some "data:image/jpeg;base64,AAAA";
              stats := None; error := None |} in
  let env := {| objectURL := fun _ => "blob:1"; decode := fun _ => Some (1, 1);
                context2d := true; dataURL := fun _ _ _ _ => "data:image/jpeg;base64,AAAA";
                random := fun _ => of_Z 0 |} in
  trace (exec env (handleDownload s) s) =
    [Act (ClickLink "data:image/jpeg;base64,AAAA" "compressed_my.jpg")]
  /\ "compressed_my.jpg" <> "compressed_" ++ "my.photo" ++ ".jpg".
Proof.
  split; [reflexivity|]. cbn. discriminate.
Qed.

(** C8, at the input where the code departs from it: a file of MIME type
    'image/gif', which is neither 'image/jpeg' nor 'image/png', is accepted:
    the status becomes 'image-loaded' and no error is set. *)
Theorem select_accepts_gif :
  let file := {| name := "clip.gif"; type := "image/gif"; size := of_Z 2000 |} in
  let env := {| objectURL := fun _ => "blob:1"; decode := fun _ => Some (1, 1);
                context2d := true; dataURL := fun _ _ _ _ => "data:,";
                random := fun _ => of_Z 0 |} in
  let w := exec env (handleImageSelect file) initial in
  type file <> "image/jpeg" /\ type file <> "image/png"
  /\ status (state w) = image_loaded /\ originalFile (state w) = Some file
  /\ error (state w) = None.
Proof.
  cbn. repeat split; try discriminate.
Qed.

(** ** The mock metrics *)

(** C9, as the code has it: whenever a compression ends with status
    'done', and whatever doubles in [[0, 1)] [Math.random] returns, [psnr]
    lies in the closed interval [[35, 40]] and [mse] in [[5, 10]]. *)
Theorem mock_metrics_closed_ranges env s url file :
  originalImageUrl s = Some url -> JsString.truthy (Some url) = true ->
  originalFile s = Some file ->
  (forall n, in_unit_interval (random env n) = true) ->
  let w := exec env (handleCompress s) s in
  status (state w) = done ->
  exists st, stats (state w) = Some st
    /\ in_range 35 40 true (psnr st) = true
    /\ in_range 5 10 true (mse st) = true.
Proof.
  intros Hu Ht Hf Hr w. subst w.
  destruct (decode env url) as [[width height]|] eqn:Hd.
  - destruct (context2d env) eqn:Hc.
    + rewrite (exec_handleCompress_completed env s url file width height)
        by assumption.
      intros _. eexists. split; [reflexivity|]. cbn [psnr mse]. unfold in_range.
      destruct (mock_metric_bounds 35 (random env 0)) as [H1 H2];
        [now left | apply Hr |].
      destruct (mock_metric_bounds 5 (random env 1)) as [H3 H4];
        [now right | apply Hr |].
      change (35 + 5) with 40 in H2. change (5 + 5) with 10 in H4.
      rewrite H1, H2, H3, H4. split; reflexivity.
    + rewrite (exec_handleCompress_no_context env s url file width height)
        by assumption.
      discriminate.
  - rewrite (exec_handleCompress_decode_failed env s url file) by assumption.
    discriminate.
Qed.

Lemma mock_metrics_closed_ranges_witness :
  exists st,
    stats (state (exec (sample_env (of_Z 0)) (handleCompress sample_state)
                    sample_state)) = Some st
    /\ in_range 35 40 true (psnr st) = true
    /\ in_range 5 10 true (mse st) = true.
Proof.
  apply (mock_metrics_closed_ranges (sample_env (of_Z 0)) sample_state
           "blob:1" sample_file); reflexivity.
Defined.

(** C9, as stated, fails: when [Math.random] returns the double
    [1 - 2^-53], the product [r * 5] rounds to [5 - 2^-50] and the sums
    [35 + ...] and [5 + ...] round to exactly 40 and 10, so [psnr < 40] and
    [mse < 10] are both false. *)
Lemma mock_metrics_reach_upper_ends :
  let w := exec (sample_env below_one) (handleCompress sample_state) sample_state in
  in_unit_interval below_one = true
  /\ status (state w) = done
  /\ option_map psnr (stats (state w)) = Some (of_Z 40)
  /\ option_map mse (stats (state w)) = Some (of_Z 10)
  /\ option_map (fun st => in_range 35 40 false (psnr st)) (stats (state w)) = Some false
  /\ option_map (fun st => in_range 5 10 false (mse st)) (stats (state w)) = Some false.
Proof.
  vm_compute. repeat split.
Qed.


(** ** More on the handlers *)

(** X1: Compress without a loaded image (no file, or no object URL, the
    empty string counting as none) changes nothing and calls nothing. *)
Theorem compress_without_image env s :
  JsString.truthy (originalImageUrl s) = false \/ originalFile s = None ->
  let w := exec env (handleCompress s) s in
  state w = s /\ trace w = [].
Proof.
  intros H w. subst w. rewrite exec_handleCompress_not_ready by exact H.
  split; reflexivity.
Qed.

Lemma compress_without_image_witness :
  state (exec (sample_env (of_Z 0)) (handleCompress initial) initial) = initial.
Proof.
  apply (compress_without_image (sample_env (of_Z 0)) initial).
  left. reflexivity.
Defined.

(** X2: Download without a compressed image URL (null or empty) changes
    nothing and clicks no link. *)
Theorem download_without_image env s :
  JsString.truthy (compressedImageUrl s) = false ->
  let w := exec env (handleDownload s) s in
  state w = s /\ trace w = [].
Proof.
  intros H w. subst w. unfold exec, handleDownload.
  destruct (compressedImageUrl s) as [[|c u]|]; try discriminate;
    split; reflexivity.
Qed.

Lemma download_without_image_witness :
  trace (exec (sample_env (of_Z 0)) (handleDownload sample_state) sample_state)
  = [].
Proof.
  apply (download_without_image (sample_env (of_Z 0)) sample_state).
  reflexivity.
Defined.

(** X3: the only browser calls of 'New Image' are the revocations of the
    object URLs the state holds, the original image's first. *)
Theorem clear_revokes_held_urls env s :
  filter external (trace (exec env (handleClear s) s))
  = map (fun u => Act (RevokeObjectURL u)) (heldUrls s).
Proof.
  unfold exec, handleClear, revokeIfSet, heldUrls.
  destruct (originalImageUrl s) as [[|c u]|];
    destruct (compressedImageUrl s) as [[|c' u']|]; reflexivity.
Qed.

(** X4: selecting a file creates an object URL exactly when the file is
    accepted, and makes no other browser call. *)
Theorem select_creates_url_only_when_accepted env s file :
  filter external (trace (exec env (handleImageSelect file) s))
  = if JsString.startsWith (type file) "image/"
    then [Act (CreateObjectURL file)] else [].
Proof.
  unfold exec, handleImageSelect.
  destruct (JsString.startsWith (type file) "image/"); reflexivity.
Qed.

(** X5: a compression that failed can be tried again and then succeed,
    but nothing clears the error: after the successful retry the status is
    'done' and the error string of the failure is still set. *)
Theorem retry_keeps_error env1 env2 s url file width height :
  originalImageUrl s = Some url -> JsString.truthy (Some url) = true ->
  originalFile s = Some file ->
  decode env1 url = None \/ context2d env1 = false ->
  decode env2 url = Some (width, height) -> context2d env2 = true ->
  let s1 := state (exec env1 (handleCompress s) s) in
  let s2 := state (exec env2 (handleCompress s1) s1) in
  status s2 = done /\ error s2 = error s1 /\ error s1 <> None
  /\ compressedImageUrl s2 = Some (dataURL env2 width height "image/jpeg" lit_0_7).
Proof.
  intros Hu Ht Hf Hfail Hd2 Hc2 s1 s2.
  assert (H1 : originalImageUrl s1 = Some url /\ originalFile s1 = Some file
               /\ error s1 <> None).
  { subst s1. destruct (decode env1 url) as [[w h]|] eqn:Hd.
    - destruct Hfail as [? | Hc]; [discriminate|].
      rewrite (exec_handleCompress_no_context env1 s url file w h)
        by assumption.
      cbn. repeat split; try assumption. discriminate.
    - rewrite (exec_handleCompress_decode_failed env1 s url file)
        by assumption.
      cbn. repeat split; try assumption. discriminate. }
  destruct H1 as (Hu1 & Hf1 & He1).
  subst s2.
  rewrite (exec_handleCompress_completed env2 s1 url file width height)
    by assumption.
  cbn. repeat split. exact He1.
Qed.

Lemma retry_keeps_error_witness :
  status
    (state
       (exec (sample_env (of_Z 0))
          (handleCompress
             (state (exec {| objectURL := fun _ => "blob:1";
                             decode := fun _ => None; context2d := true;
                             dataURL := fun _ _ _ _ => "data:,";
                             random := fun _ => of_Z 0 |}
                       (handleCompress sample_state) sample_state)))
          (state (exec {| objectURL := fun _ => "blob:1";
                          decode := fun _ => None; context2d := true;
                          dataURL := fun _ _ _ _ => "data:,";
                          random := fun _ => of_Z 0 |}
                    (handleCompress sample_state) sample_state)))) = done.
Proof.
  apply (retry_keeps_error
           {| objectURL := fun _ => "blob:1"; decode := fun _ => None;
              context2d := true; dataURL := fun _ _ _ _ => "data:,";
              random := fun _ => of_Z 0 |}
           (sample_env (of_Z 0)) sample_state "blob:1" sample_file 640 480);
    try reflexivity.
  left. reflexivity.
Defined.

(** X6: selecting an accepted file and then compressing it, when the image
    loads and the canvas has a 2D context, ends with status 'done', that file
    as the original, no error, stats whose [originalSize] is the file's size,
    and the canvas's data URL as the compressed image. *)
Theorem select_then_compress env s0 file width height :
  JsString.startsWith (type file) "image/" = true ->
  JsString.truthy (Some (objectURL env file)) = true ->
  decode env (objectURL env file) = Some (width, height) ->
  context2d env = true ->
  let s1 := state (exec env (handleImageSelect file) s0) in
  let s2 := state (exec env (handleCompress s1) s1) in
  status s2 = done /\ originalFile s2 = Some file /\ error s2 = None
  /\ option_map originalSize (stats s2) = Some (size file)
  /\ compressedImageUrl s2 = Some (dataURL env width height "image/jpeg" lit_0_7).
Proof.
  intros Hi Ht Hd Hc s1 s2.
  assert (H1 : s1 = {| status := image_loaded; originalFile := Some file;
                       originalImageUrl := Some (objectURL env file);
                       compressedImageUrl := None; stats := None;
                       error := None |}).
  { subst s1. unfold exec, handleImageSelect. rewrite Hi. reflexivity. }
  subst s2.
  rewrite (exec_handleCompress_completed env s1 (objectURL env file) file
             width height); try assumption; try (rewrite H1; reflexivity).
  rewrite H1. cbn. repeat split.
Qed.

Lemma select_then_compress_witness :
  status
    (state
       (exec (sample_env (of_Z 0))
          (handleCompress
             (state (exec (sample_env (of_Z 0)) (handleImageSelect sample_file)
                       initial)))
          (state (exec (sample_env (of_Z 0)) (handleImageSelect sample_file)
                    initial)))) = done.
Proof.
  apply (select_then_compress (sample_env (of_Z 0)) initial sample_file 640 480);
    reflexivity.
Defined.

(** X7: after a compression that went through, Download leaves the state
    as it is and links to exactly the data URL the canvas returned, under
    the name derived from the selected file (and does nothing if that data
    URL is the empty string). *)
Theorem compress_then_download env s url file width height :
  originalImageUrl s = Some url -> JsString.truthy (Some url) = true ->
  originalFile s = Some file ->
  decode env url = Some (width, height) -> context2d env = true ->
  let dataUrl := dataURL env width height "image/jpeg" lit_0_7 in
  let s1 := state (exec env (handleCompress s) s) in
  let w := exec env (handleDownload s1) s1 in
  state w = s1 /\
  trace w = if JsString.truthy (Some dataUrl)
            then [Act (ClickLink dataUrl (downloadName (Some file)))]
            else [].
Proof.
  intros Hu Ht Hf Hd Hc dataUrl s1 w. subst w s1.
  rewrite (exec_handleCompress_completed env s url file width height)
    by assumption.
  unfold exec, handleDownload, completed. cbn [state compressedImageUrl originalFile].
  fold dataUrl. rewrite Hf. destruct dataUrl as [|c u]; split; reflexivity.
Qed.

Lemma compress_then_download_witness :
  trace
    (exec (sample_env (of_Z 0))
       (handleDownload
          (state (exec (sample_env (of_Z 0)) (handleCompress sample_state)
                    sample_state)))
       (state (exec (sample_env (of_Z 0)) (handleCompress sample_state)
                 sample_state)))
  = [Act (ClickLink "data:image/jpeg;base64,AAAAAAAAAAAA" "compressed_photo.jpg")].
Proof.
  apply (compress_then_download (sample_env (of_Z 0)) sample_state "blob:1"
           sample_file 640 480); reflexivity.
Defined.

Local Close Scope string_scope.

(** ** The size computed from the data URL

    Whole numbers below [2^53] are doubles, and the subtraction, the
    multiplication by 3 and the division by 4 of line 124 are exact on
    them. *)

Lemma bounded_fexp (m : positive) (e : Z) :
  SpecFloat.bounded prec emax m e = true ->
  Z.max (Zpos (digits2_pos m) + e - 53) (-1074) = e /\ e <= 971.
Proof.
  unfold SpecFloat.bounded, canonical_mantissa. rewrite fexp_eq. intros H.
  apply andb_prop in H. destruct H as [Hc He].
  apply Z.eqb_eq in Hc. apply Z.leb_le in He. unfold emax, prec in He. lia.
Qed.

Lemma digits_shift (m p : positive) (n : Z) :
  0 <= n -> Zpos p = Zpos m * 2 ^ n ->
  Zpos (digits2_pos p) = Zpos (digits2_pos m) + n.
Proof.
  intros Hn Hp. destruct (digits2_pos_spec m) as [Hlo Hhi].
  assert (HP : 0 < 2 ^ n) by (apply Z.pow_pos_nonneg; lia).
  assert (H1 : Zpos (digits2_pos p) <= Zpos (digits2_pos m) + n).
  { apply digits2_pos_le; [lia|]. rewrite Hp, Z.pow_add_r by lia.
    set (A := 2 ^ Zpos (digits2_pos m)) in *. set (B := 2 ^ n) in *. nia. }
  assert (H2 : Zpos (digits2_pos m) - 1 + n + 1 <= Zpos (digits2_pos p)).
  { apply digits2_pos_ge; [lia|]. rewrite Hp, Z.pow_add_r by lia.
    set (A := 2 ^ (Zpos (digits2_pos m) - 1)) in *. set (B := 2 ^ n) in *. nia. }
  lia.
Qed.

(** Rounding a value that is a double gives that double. *)
Lemma binary_round_aux_exact (m p : positive) (e n : Z) :
  SpecFloat.bounded prec emax m e = true -> 0 <= n -> Zpos p = Zpos m * 2 ^ n ->
  binary_round_aux prec emax false (Zpos p) (e - n) loc_Exact
  = S754_finite false m e.
Proof.
  intros Hb Hn Hp. destruct (bounded_fexp m e Hb) as [Hf He].
  pose proof (digits_shift m p n Hn Hp) as Hd.
  assert (HP : 0 < 2 ^ n) by (apply Z.pow_pos_nonneg; lia).
  unfold binary_round_aux. unfold shr_fexp at 1.
  cbn [Zdigits2 shr_record_of_loc]. rewrite fexp_eq.
  replace (Z.max (Zpos (digits2_pos p) + (e - n) - 53) (-1074) - (e - n))
    with n by lia.
  destruct (shr_shifted (Zpos p) (e - n) n) as (mrs & Hshr & Hm & Hl);
    [lia | lia |].
  rewrite Hshr.
  assert (Hq : Zpos p / 2 ^ n = Zpos m) by (rewrite Hp; apply Z.div_mul; lia).
  assert (Hr : Zpos p mod 2 ^ n = 0) by (rewrite Hp; apply Z.mod_mul; lia).
  rewrite Hr in Hl. cbn [Z.eqb] in Hl. rewrite Hm, Hl, Hq.
  cbn [round_nearest_even]. unfold shr_fexp. cbn [Zdigits2 shr_record_of_loc].
  rewrite fexp_eq. rewrite shr_nonpos by lia. cbn [shr_m].
  replace (e - n + n <=? emax - prec) with true
    by (symmetry; apply Z.leb_le; unfold emax, prec; lia).
  f_equal. lia.
Qed.

Lemma binary_round_exact (m S : positive) (e E : Z) :
  SpecFloat.bounded prec emax m e = true ->
  (E <= e /\ Zpos S = Zpos m * 2 ^ (e - E)) \/
  (e <= E /\ Zpos m = Zpos S * 2 ^ (E - e)) ->
  binary_round prec emax false S E = S754_finite false m e.
Proof.
  intros Hb H. destruct (bounded_fexp m e Hb) as [Hf He].
  unfold binary_round. rewrite fexp_eq.
  destruct H as [[HE HS] | [HE HS]].
  - pose proof (digits_shift m S (e - E) ltac:(lia) HS) as Hd.
    rewrite shl_align_ge by lia.
    replace E with (e - (e - E)) at 1 by lia.
    apply (binary_round_aux_exact m S e (e - E)); [exact Hb | lia | exact HS].
  - pose proof (digits_shift S m (E - e) ltac:(lia) HS) as Hd.
    destruct (shl_align_le S E (Z.max (Zpos (digits2_pos S) + E - 53) (-1074)))
      as [Hsnd Hfst]; [lia|].
    destruct (shl_align S E (Z.max (Zpos (digits2_pos S) + E - 53) (-1074)))
      as [mz ez]. cbn [fst snd] in Hsnd, Hfst. subst ez.
    replace (Z.max (Zpos (digits2_pos S) + E - 53) (-1074)) with e in * by lia.
    assert (mz = m) by (apply Pos2Z.inj; lia). subst mz.
    replace e with (e - 0) at 1 by lia.
    apply (binary_round_aux_exact m m e 0); [exact Hb | lia | cbn; lia].
Qed.

(** The double of a whole number below [2^53]. *)
Lemma of_Z_finite (K : Z) :
  0 < K < 2 ^ 53 ->
  exists m e,
    of_Z K = S754_finite false m e /\ SpecFloat.bounded prec emax m e = true
    /\ -52 <= e <= 0 /\ Zpos m = K * 2 ^ (- e) /\ 2 ^ 52 <= Zpos m.
Proof.
  intros [H0 H53]. destruct K as [|p|p]; try lia.
  pose proof (digits2_pos_spec p) as [Hlo Hhi].
  assert (Hd : Zpos (digits2_pos p) <= 53) by (apply digits2_pos_le; lia).
  set (d := Zpos (digits2_pos p)) in *.
  assert (Hd1 : 1 <= d) by (unfold d; lia).
  destruct (Z.eq_dec d 53) as [Heq | Hne].
  - exists p, 0.
    assert (Hb : SpecFloat.bounded prec emax p 0 = true).
    { unfold SpecFloat.bounded, canonical_mantissa. rewrite fexp_eq. fold d.
      apply andb_true_intro. split; [apply Z.eqb_eq; lia | reflexivity]. }
    split; [|split; [exact Hb|]].
    + unfold of_Z. cbn [binary_normalize].
      apply (binary_round_exact p p 0 0 Hb). left. split; [lia|]. cbn. lia.
    + rewrite Heq in Hlo. cbn. split; [lia|]. split; lia.
  - assert (Hs : exists m, Zpos m = Zpos p * 2 ^ (53 - d)).
    { assert (0 < Zpos p * 2 ^ (53 - d)).
      { apply Z.mul_pos_pos; [lia|]. apply Z.pow_pos_nonneg; lia. }
      destruct (Zpos p * 2 ^ (53 - d)) as [|m|m] eqn:E; try lia. now exists m. }
    destruct Hs as [m Hm].
    pose proof (digits_shift p m (53 - d) ltac:(lia) Hm) as Hdm. fold d in Hdm.
    exists m, (d - 53).
    assert (Hb : SpecFloat.bounded prec emax m (d - 53) = true).
    { unfold SpecFloat.bounded, canonical_mantissa. rewrite fexp_eq.
      apply andb_true_intro. split; [apply Z.eqb_eq; lia |].
      apply Z.leb_le. unfold emax, prec. lia. }
    split; [|split; [exact Hb|]].
    + unfold of_Z. cbn [binary_normalize].
      apply (binary_round_exact m p (d - 53) 0 Hb). right. split; [lia|].
      rewrite Hm. f_equal. f_equal. lia.
    + split; [lia|]. split.
      * rewrite Hm. f_equal. f_equal. lia.
      * destruct (digits2_pos_spec m) as [Hmlo _].
        replace (Zpos (digits2_pos m)) with 53 in Hmlo by lia. exact Hmlo.
Qed.

Lemma pow2_split (a b : Z) : 0 <= a -> 0 <= b -> 2 ^ (a + b) = 2 ^ a * 2 ^ b.
Proof. intros. now apply Z.pow_add_r. Qed.

(** Whole numbers below [2^53] subtract exactly. *)
Lemma sub_of_Z (a b : Z) :
  0 < b < a -> a < 2 ^ 53 -> sub (of_Z a) (of_Z b) = of_Z (a - b).
Proof.
  intros Hb Ha.
  destruct (of_Z_finite a) as (ma & ea & -> & Ba & Hea & Hma & _); [lia|].
  destruct (of_Z_finite b) as (mb & eb & -> & Bb & Heb & Hmb & _); [lia|].
  destruct (of_Z_finite (a - b)) as (mc & ec & -> & Bc & Hec & Hmc & _); [lia|].
  unfold sub, SFsub. cbn [cond_Zopp].
  set (ez := Z.min ea eb).
  destruct (shl_align_le ma ea ez) as [_ Hxa]; [unfold ez; lia|].
  destruct (shl_align_le mb eb ez) as [_ Hxb]; [unfold ez; lia|].
  set (xa := fst (shl_align ma ea ez)) in *.
  set (xb := fst (shl_align mb eb ez)) in *.
  assert (Hez : -52 <= ez <= 0) by (unfold ez; lia).
  assert (Ea : 2 ^ (- ez) = 2 ^ (- ea) * 2 ^ (ea - ez)).
  { rewrite <- pow2_split by (unfold ez; lia). f_equal. lia. }
  assert (Eb : 2 ^ (- ez) = 2 ^ (- eb) * 2 ^ (eb - ez)).
  { rewrite <- pow2_split by (unfold ez; lia). f_equal. lia. }
  assert (HS : Zpos xa - Zpos xb = (a - b) * 2 ^ (- ez)).
  { rewrite Hxa, Hxb, Hma, Hmb. rewrite Z.mul_sub_distr_r.
    rewrite Ea at 1. rewrite Eb. ring. }
  assert (Hpos : 0 < 2 ^ (- ez)) by (apply Z.pow_pos_nonneg; lia).
  destruct (Zpos xa - Zpos xb) as [|S|S] eqn:ES; try nia.
  cbn [binary_normalize].
  apply (binary_round_exact mc S ec ez Bc).
  destruct (Z_le_gt_dec ez ec) as [Hle | Hgt]; [left | right]; split; try lia.
  - rewrite HS, Hmc. rewrite <- Z.mul_assoc, <- pow2_split by lia.
    f_equal. f_equal. lia.
  - rewrite HS, Hmc. rewrite <- Z.mul_assoc, <- pow2_split by lia.
    f_equal. f_equal. lia.
Qed.

(** A whole number below [2^51] is tripled exactly. *)
Lemma mul_of_Z_3 (c : Z) :
  0 < c < 2 ^ 51 -> mul (of_Z c) (of_Z 3) = of_Z (3 * c).
Proof.
  intros Hc.
  assert (Hc3 : 0 < 3 * c < 2 ^ 53).
  { change (2 ^ 53) with (4 * 2 ^ 51). lia. }
  assert (Hc1 : 0 < c < 2 ^ 53).
  { change (2 ^ 53) with (4 * 2 ^ 51). lia. }
  destruct (of_Z_finite c Hc1) as (mc & ec & -> & Bc & Hec & Hmc & Hc52).
  destruct (of_Z_finite (3 * c) Hc3) as (mt & et & -> & Bt & Het & Hmt & Ht52).
  change (of_Z 3) with (S754_finite false 6755399441055744 (-51)).
  unfold mul, SFmul. cbn [xorb].
  pose proof (bounded_lt_pow mc ec Bc) as Hmc53.
  pose proof (bounded_lt_pow mt et Bt) as Hmt53.
  assert (Hee : ec <= et).
  { destruct (Z_le_gt_dec ec et) as [|Hgt]; [assumption|]. exfalso.
    assert (E : 2 ^ (- et) = 2 ^ (- ec) * 2 ^ (ec - et)).
    { rewrite <- pow2_split by lia. f_equal. lia. }
    assert (2 <= 2 ^ (ec - et)).
    { change 2 with (2 ^ 1) at 1. apply Z.pow_le_mono_r; lia. }
    assert (0 < 2 ^ (- ec)) by (apply Z.pow_pos_nonneg; lia).
    assert (Hmt' : Zpos mt = 3 * Zpos mc * 2 ^ (ec - et)).
    { rewrite Hmt, Hmc, E. ring. }
    change (2 ^ 53) with (2 * 2 ^ 52) in Hmt53.
    set (B := 2 ^ (ec - et)) in *. set (c52 := 2 ^ 52) in *.
    assert (0 < c52) by (unfold c52; lia).
    assert (3 * Zpos mc * 2 <= 3 * Zpos mc * B) by nia. lia. }
  replace (ec + -51) with (et - (et - ec + 51)) by lia.
  apply (binary_round_aux_exact mt _ et (et - ec + 51) Bt); [lia|].
  rewrite Pos2Z.inj_mul, Hmc, Hmt.
  change (Zpos 6755399441055744) with (3 * 2 ^ 51).
  assert (E : 2 ^ (- ec) = 2 ^ (- et) * 2 ^ (et - ec)).
  { rewrite <- pow2_split by lia. f_equal. lia. }
  rewrite E. rewrite (pow2_split (et - ec) 51) by lia. ring.
Qed.

(** A whole number below [2^53] is quartered exactly. *)
Lemma div_by_4 (m : positive) (e : Z) :
  SpecFloat.bounded prec emax m e = true -> -52 <= e <= 0 -> 2 ^ 52 <= Zpos m ->
  div (S754_finite false m e) (of_Z 4) = S754_finite false m (e - 2).
Proof.
  intros Hb He H52.
  destruct (bounded_canonical m e Hb) as (_ & Hd53 & _).
  assert (Hd : Zpos (digits2_pos m) = 53).
  { pose proof (digits2_pos_ge m 52 ltac:(lia) H52). lia. }
  change (of_Z 4) with (S754_finite false 4503599627370496 (-50)).
  unfold div, SFdiv, SFdiv_core_binary. cbn [xorb Zdigits2].
  rewrite Hd. change (Zpos (digits2_pos 4503599627370496)) with 53.
  rewrite fexp_eq.
  replace (Z.min (Z.max (53 + e - (53 + -50) - 53) (-1074)) (e - -50))
    with (e - 3) by lia.
  replace (e - -50 - (e - 3)) with 53 by lia.
  cbv iota. rewrite Z.shiftl_mul_pow2 by lia.
  destruct (Z.div_eucl (Zpos m * 2 ^ 53) (Zpos 4503599627370496))
    as [q r] eqn:Hqr.
  assert (Hq : q = Zpos m * 2 ^ 53 / Zpos 4503599627370496)
    by (unfold Z.div; now rewrite Hqr).
  assert (Hr : r = (Zpos m * 2 ^ 53) mod Zpos 4503599627370496)
    by (unfold Z.modulo; now rewrite Hqr).
  change (2 ^ 53) with (2 * Zpos 4503599627370496) in Hq, Hr.
  rewrite Z.mul_assoc in Hq, Hr.
  rewrite Z.div_mul in Hq by discriminate. rewrite Z.mod_mul in Hr by discriminate.
  subst q r. change (new_location (Zpos 4503599627370496) 0) with loc_Exact.
  replace (e - 3) with (e - 2 - 1) by lia.
  replace (Zpos m * 2) with (Zpos m~0) by lia.
  apply (binary_round_aux_exact m (m~0) (e - 2) 1); [| lia | cbn; lia].
  unfold SpecFloat.bounded, canonical_mantissa. rewrite fexp_eq, Hd.
  apply andb_true_intro. split; [apply Z.eqb_eq; lia |].
  apply Z.leb_le. unfold emax, prec. lia.
Qed.

(** [Math.round] of a positive number of quarters. *)
Lemma Math_round_quarters (t : Z) (m : positive) (e : Z) :
  2 <= t -> -52 <= e <= 0 -> Zpos m = t * 2 ^ (- e) ->
  Math_round (S754_finite false m (e - 2)) = of_Z ((t + 2) / 4).
Proof.
  intros Ht He Hm. unfold Math_round.
  destruct (Z.leb_spec 0 (e - 2)) as [Hpos|_]; [lia|].
  cbn [cond_Zopp].
  assert (HA : 0 < 2 ^ (- e)) by (apply Z.pow_pos_nonneg; lia).
  assert (E1 : 2 ^ (- (e - 2)) = 4 * 2 ^ (- e)).
  { replace (- (e - 2)) with (2 + - e) by lia. now rewrite pow2_split by lia. }
  assert (E2 : 2 ^ (1 - (e - 2)) = 8 * 2 ^ (- e)).
  { replace (1 - (e - 2)) with (3 + - e) by lia. now rewrite pow2_split by lia. }
  rewrite E1, E2, Hm.
  replace (2 * (t * 2 ^ (- e)) + 4 * 2 ^ (- e)) with ((2 * (t + 2)) * 2 ^ (- e))
    by ring.
  rewrite Z.div_mul_cancel_r by lia.
  change 8 with (2 * 4). rewrite Z.div_mul_cancel_l by lia.
  assert (1 <= (t + 2) / 4) by (apply Z.div_le_lower_bound; lia).
  destruct (Z.eqb_spec ((t + 2) / 4) 0); [lia | reflexivity].
Qed.

(** X8: for a data URL of [n] characters, [23 <= n < 2^50], the computed
    size is the whole number [floor((3 * (n - 23) + 2) / 4)], that is
    [3 * (n - 23) / 4] rounded to the nearest whole number, halves upwards:
    no rounding error enters, and the size depends on the length of the
    data URL only. *)
Theorem sizeOfDataUrl_formula (dataUrl : string) :
  let n := Z.of_nat (String.length dataUrl) in
  23 <= n < 2 ^ 50 ->
  sizeOfDataUrl dataUrl = of_Z ((3 * (n - 23) + 2) / 4).
Proof.
  intros n Hn. unfold sizeOfDataUrl, JsString.length. fold n.
  change (Z.of_nat (String.length head)) with 23.
  destruct (Z.eq_dec n 23) as [-> | Hne]; [reflexivity|].
  assert (H53 : n < 2 ^ 53) by (change (2 ^ 53) with (8 * 2 ^ 50); lia).
  rewrite (sub_of_Z n 23) by lia.
  assert (Hc : 0 < n - 23 < 2 ^ 51) by (change (2 ^ 51) with (2 * 2 ^ 50); lia).
  rewrite (mul_of_Z_3 (n - 23) Hc).
  assert (Ht : 0 < 3 * (n - 23) < 2 ^ 53)
    by (change (2 ^ 53) with (8 * 2 ^ 50); lia).
  destruct (of_Z_finite (3 * (n - 23)) Ht) as (m & e & -> & Hb & He & Hm & H52).
  rewrite (div_by_4 m e Hb He H52).
  apply (Math_round_quarters (3 * (n - 23)) m e); [lia | exact He | exact Hm].
Qed.

Lemma sizeOfDataUrl_formula_witness :
  sizeOfDataUrl "data:image/jpeg;base64,AAAAAAAAAAAA"%string = of_Z 9.
Proof.
  apply (sizeOfDataUrl_formula "data:image/jpeg;base64,AAAAAAAAAAAA"%string).
  change (23 <= 35 < 2 ^ 50). lia.
Defined.

(** ** [formatBytes]

    Division rounds the exact quotient to the nearest double; the bounds
    below follow the quotient through the rounding, and [Math.floor] takes
    its whole part. *)

Import FormatBytes.

(** The bits of a number that is not negative. *)
Lemma Zdigits2_spec (q : Z) :
  0 <= q ->
  0 <= Zdigits2 q /\ q < 2 ^ Zdigits2 q /\
  (0 < q -> 1 <= Zdigits2 q /\ 2 ^ (Zdigits2 q - 1) <= q).
Proof.
  intros Hq. destruct q as [|p|p]; [| |lia].
  - cbn. repeat split; lia.
  - cbn [Zdigits2]. pose proof (digits2_pos_spec p) as [Hlo Hhi].
    repeat split; lia.
Qed.

Lemma Zdigits2_le (q k : Z) : 0 <= q -> 0 <= k -> q < 2 ^ k -> Zdigits2 q <= k.
Proof.
  intros Hq Hk H. destruct q as [|p|p]; [cbn; lia | | lia].
  cbn [Zdigits2]. now apply digits2_pos_le.
Qed.

Lemma Zdigits2_ge (q k : Z) : 0 <= k -> 2 ^ k <= q -> k + 1 <= Zdigits2 q.
Proof.
  intros Hk H.
  assert (0 < 2 ^ k) by (apply Z.pow_pos_nonneg; lia).
  destruct q as [|p|p]; [lia | | lia].
  cbn [Zdigits2]. now apply digits2_pos_ge.
Qed.

Lemma loc_bits_range (l : location) : 0 <= loc_bits l <= 3.
Proof. destruct l as [|[ | | ]]; cbn; lia. Qed.

(** A mantissa with its location is the register after two shifts of the
    mantissa extended by the two bits of the location. *)
Lemma record_of_loc_shifted (q : Z) (l : location) :
  shifted (4 * q + loc_bits l) 2 (shr_record_of_loc q l).
Proof.
  unfold shifted. change (2 ^ 2) with 4.
  pose proof (loc_bits_range l) as Hc.
  assert (Hd : (4 * q + loc_bits l) / 4 = q).
  { rewrite Z.add_comm, Z.mul_comm, Z.div_add by lia.
    rewrite Z.div_small by lia. lia. }
  assert (Hm : (4 * q + loc_bits l) mod 4 = loc_bits l).
  { rewrite Z.add_comm, Z.mul_comm, Z.mod_add by lia.
    apply Z.mod_small. lia. }
  rewrite Hd, Hm. split.
  - destruct l as [|[ | | ]]; reflexivity.
  - destruct l as [|[ | | ]]; reflexivity.
Qed.

Lemma shr_loc_shifted (q E n : Z) (l : location) :
  0 <= q -> 0 <= n ->
  exists mrs,
    shr (shr_record_of_loc q l) E n = (mrs, E + n)
    /\ shifted (4 * q + loc_bits l) (n + 2) mrs.
Proof.
  intros Hq Hn. pose proof (loc_bits_range l) as Hc.
  destruct n as [|p|p]; [| |lia].
  - exists (shr_record_of_loc q l). cbn [shr]. split.
    + now rewrite Z.add_0_r.
    + apply record_of_loc_shifted.
  - eexists. cbn [shr]. split; [reflexivity|].
    replace (Z.pos p + 2) with (2 + Z.pos p) by lia.
    apply (iter_pos_invariant shr_1 (shifted (4 * q + loc_bits l))); [|lia|].
    + intros k x Hk. apply shr_1_shifted; lia.
    + apply record_of_loc_shifted.
Qed.

(** Rounding to nearest, seen from the midpoints: a mantissa above the
    midpoint below [K] rounds to at least [K], one below the midpoint above
    [K] to at most [K]. *)
Lemma round_nearest_even_shifted_half (M n : Z) (mrs : shr_record) :
  0 <= M -> 1 <= n -> shifted M n mrs ->
  (forall K, (2 * K - 1) * 2 ^ (n - 1) < M ->
             K <= round_nearest_even (shr_m mrs) (loc_of_shr_record mrs)) /\
  (forall K, M < (2 * K + 1) * 2 ^ (n - 1) ->
             round_nearest_even (shr_m mrs) (loc_of_shr_record mrs) <= K).
Proof.
  intros HM Hn [Hm Hl].
  assert (HH : 0 < 2 ^ (n - 1)) by (apply Z.pow_pos_nonneg; lia).
  assert (HP : 2 ^ n = 2 * 2 ^ (n - 1)).
  { replace n with (Z.succ (n - 1)) at 1 by lia.
    rewrite Z.pow_succ_r by lia. reflexivity. }
  pose proof (Z.mod_pos_bound M (2 ^ n) ltac:(lia)) as Hrho.
  pose proof (Z.div_mod M (2 ^ n) ltac:(lia)) as HMeq.
  rewrite Hm, Hl. clear Hm Hl.
  set (q := M / 2 ^ n) in *. set (rho := M mod 2 ^ n) in *.
  rewrite HP in HMeq, Hrho |- *. clear HP.
  set (H := 2 ^ (n - 1)) in *.
  set (r := round_nearest_even q
              (if rho =? 0 then loc_Exact else loc_Inexact (2 * rho ?= 2 * H))).
  assert (Hr : q <= r <= q + 1 /\ (H < rho -> r = q + 1) /\ (rho < H -> r = q)).
  { unfold r. destruct (Z.eqb_spec rho 0) as [H0|H0]; cbn [round_nearest_even].
    - lia.
    - destruct (Z.compare_spec (2 * rho) (2 * H)); [destruct (Z.even q)| |]; lia. }
  destruct Hr as (Hr1 & Hr2 & Hr3).
  assert (HqH : 2 * H * q = 2 * (q * H)) by ring.
  split; intros K HK.
  - destruct (Z_lt_le_dec H rho) as [Hgt | Hle].
    + rewrite (Hr2 Hgt).
      assert (2 * K - 1 < 2 * q + 2); [|lia].
      apply (Z.mul_lt_mono_pos_r H); [exact HH|]. lia.
    + assert (2 * K - 1 < 2 * q + 1); [|lia].
      apply (Z.mul_lt_mono_pos_r H); [exact HH|]. lia.
  - destruct (Z_lt_le_dec rho H) as [Hlt | Hge].
    + rewrite (Hr3 Hlt).
      assert (2 * q < 2 * K + 1); [|lia].
      apply (Z.mul_lt_mono_pos_r H); [exact HH|]. lia.
    + assert (2 * q + 1 < 2 * K + 1); [|lia].
      apply (Z.mul_lt_mono_pos_r H); [exact HH|]. lia.
Qed.

(** Rounding a mantissa [q] with a location: the result lies on the same
    side of every point of its grid as the value rounded, and beyond a
    midpoint of the grid the value rounds away from it. *)
Lemma binary_round_aux_loc_bounds (q E : Z) (l : location) :
  0 <= q ->
  E <= fexp prec emax (Zdigits2 q + E) <= 0 ->
  exists y,
    binary_round_aux prec emax false q E l = y
    /\ is_double y = true /\ nonneg y = true
    /\ (forall K, K * 2 ^ (fexp prec emax (Zdigits2 q + E) - E + 2)
                  <= 4 * q + loc_bits l ->
                  K * 2 ^ (fexp prec emax (Zdigits2 q + E) + 1074) <= units y)
    /\ (forall K, 4 * q + loc_bits l
                  <= K * 2 ^ (fexp prec emax (Zdigits2 q + E) - E + 2) ->
                  units y <= K * 2 ^ (fexp prec emax (Zdigits2 q + E) + 1074))
    /\ (forall K, (2 * K - 1) * 2 ^ (fexp prec emax (Zdigits2 q + E) - E + 1)
                  < 4 * q + loc_bits l ->
                  K * 2 ^ (fexp prec emax (Zdigits2 q + E) + 1074) <= units y)
    /\ (forall K, 4 * q + loc_bits l
                  < (2 * K + 1) * 2 ^ (fexp prec emax (Zdigits2 q + E) - E + 1) ->
                  units y <= K * 2 ^ (fexp prec emax (Zdigits2 q + E) + 1074)).
Proof.
  rewrite fexp_eq. intros Hq [HE He1].
  destruct (Zdigits2_spec q Hq) as (Hd0 & Hdhi & Hdlo).
  pose proof (loc_bits_range l) as Hc.
  unfold binary_round_aux.
  unfold shr_fexp at 1. rewrite fexp_eq.
  set (d := Zdigits2 q) in *.
  set (e1 := Z.max (d + E - 53) (-1074)) in *.
  set (n := e1 - E).
  destruct (shr_loc_shifted q E n l) as (mrs & Hshr & Hsh); [lia | lia |].
  set (X := 4 * q + loc_bits l) in *.
  destruct (round_nearest_even_shifted X (n + 2) mrs) as [Hlo Hhi];
    [lia | lia | exact Hsh |].
  destruct (round_nearest_even_shifted_half X (n + 2) mrs) as [Hlo2 Hhi2];
    [lia | lia | exact Hsh |].
  replace (n + 2 - 1) with (n + 1) in Hlo2, Hhi2 by lia.
  rewrite Hshr.
  set (m1 := round_nearest_even (shr_m mrs) (loc_of_shr_record mrs)) in *.
  replace (E + n) with e1 by lia.
  assert (HB : 0 < 2 ^ n) by (apply Z.pow_pos_nonneg; lia).
  assert (HC : 0 < 2 ^ (e1 + 1074)) by (apply Z.pow_pos_nonneg; lia).
  assert (P0 : 2 ^ (n + 2) = 4 * 2 ^ n).
  { rewrite Z.pow_add_r by lia. change (2 ^ 2) with 4. ring. }
  assert (P3 : 2 ^ d <= 2 ^ 53 * 2 ^ n).
  { rewrite <- Z.pow_add_r by lia. apply Z.pow_le_mono_r; lia. }
  assert (P4 : -1074 < e1 -> 2 ^ (d - 1) = 2 ^ 52 * 2 ^ n /\ 0 < q).
  { intros He. assert (Hn53 : n = d - 53) by lia.
    split; [rewrite <- Z.pow_add_r by lia; f_equal; lia|].
    destruct (Z.eq_dec q 0) as [H0|H0]; [|lia].
    subst q. unfold d in Hn53. cbn in Hn53. lia. }
  assert (H0 : 0 <= m1) by (apply Hlo; lia).
  assert (H53 : m1 <= 2 ^ 53).
  { apply Hhi. rewrite P0. unfold X.
    set (B := 2 ^ n) in *. set (D := 2 ^ d) in *. set (c53 := 2 ^ 53) in *. lia. }
  assert (Hnorm : -1074 < e1 -> 2 ^ 52 <= m1).
  { intros Hn. apply Hlo. destruct (P4 Hn) as [P4' Hq0].
    destruct (Hdlo Hq0) as [_ Hq1]. rewrite P0. unfold X.
    rewrite P4' in Hq1.
    set (B := 2 ^ n) in *. set (c52 := 2 ^ 52) in *. lia. }
  destruct (renormalise m1 e1) as (y & Hy & Hyd & Hs & Hu); [lia | lia | exact Hnorm |].
  exists y. split; [exact Hy|]. split; [exact Hyd|]. split; [exact Hs|].
  rewrite Hu. fold n. replace (e1 - E + 1) with (n + 1) by lia.
  set (C := 2 ^ (e1 + 1074)) in *.
  repeat split; intros K HK; (apply Z.mul_le_mono_nonneg_r; [lia|]).
  - apply Hlo. exact HK.
  - apply Hhi. exact HK.
  - apply Hlo2. exact HK.
  - apply Hhi2. exact HK.
Qed.

(** Where the remainder [r] of a division by [nb] lies, in the bits of its
    location. *)
Lemma new_location_cases (nb r : Z) :
  0 < nb -> 0 <= r < nb ->
  (r = 0 /\ loc_bits (new_location nb r) = 0)
  \/ (0 < r /\ 2 * r < nb /\ loc_bits (new_location nb r) = 1)
  \/ (2 * r = nb /\ loc_bits (new_location nb r) = 2)
  \/ (nb < 2 * r /\ loc_bits (new_location nb r) = 3).
Proof.
  intros Hnb Hr. unfold new_location, new_location_even, new_location_odd.
  destruct (Z.even nb) eqn:Hev; destruct (Z.eqb_spec r 0) as [H0|H0];
    cbn [loc_bits]; try (left; split; [assumption | reflexivity]).
  - destruct (Z.compare_spec (2 * r) nb); cbn [loc_bits].
    + right. right. left. split; [assumption | reflexivity].
    + right. left. repeat split; lia.
    + right. right. right. split; [assumption | reflexivity].
  - assert (Hodd : Z.odd nb = true) by (rewrite <- Z.negb_even, Hev; reflexivity).
    apply Z.odd_spec in Hodd. destruct Hodd as [m Hm].
    destruct (Z.compare_spec (2 * r + 1) nb); cbn [loc_bits].
    + right. left. repeat split; lia.
    + right. left. repeat split; lia.
    + right. right. right. split; [lia | reflexivity].
Qed.

(** A quotient with its remainder, extended by the bits of the location,
    lies on the same side of every whole number, and of every half, as the
    exact quotient. *)
Lemma quotient_bits (M nb q r : Z) :
  0 < nb -> M = nb * q + r -> 0 <= r < nb ->
  (forall N, N * nb <= M -> 4 * N <= 4 * q + loc_bits (new_location nb r)) /\
  (forall N, M <= N * nb -> 4 * q + loc_bits (new_location nb r) <= 4 * N) /\
  (forall t, 2 * t * nb < 4 * M -> 2 * t < 4 * q + loc_bits (new_location nb r)) /\
  (forall t, 4 * M < 2 * t * nb -> 4 * q + loc_bits (new_location nb r) < 2 * t).
Proof.
  intros Hnb HM Hr.
  pose proof (new_location_cases nb r Hnb Hr) as Hc.
  set (c := loc_bits (new_location nb r)) in *. clearbody c.
  assert (Hqn : nb * q = q * nb) by ring.
  repeat split.
  - intros N H.
    assert (N <= q).
    { destruct (Z_le_gt_dec N q) as [|Hgt]; [assumption|].
      assert ((q + 1) * nb <= N * nb) by (apply Z.mul_le_mono_nonneg_r; lia).
      lia. }
    lia.
  - intros N H.
    assert (Hq : q <= N).
    { destruct (Z_le_gt_dec q N) as [|Hgt]; [assumption|].
      assert ((N + 1) * nb <= q * nb) by (apply Z.mul_le_mono_nonneg_r; lia).
      lia. }
    destruct (Z.eq_dec q N) as [->|Hne]; lia.
  - intros t H.
    set (u := t - 2 * q).
    assert (Hun : u * nb < 2 * r).
    { replace (u * nb) with (t * nb - 2 * (q * nb)) by (unfold u; ring). lia. }
    assert (Hu : u < 2).
    { apply (Z.mul_lt_mono_pos_r nb); [exact Hnb|]. lia. }
    assert (H1 : u = 1 -> nb < 2 * r) by (intros E; rewrite E in Hun; lia).
    assert (H0 : u = 0 -> 0 < r) by (intros E; rewrite E in Hun; lia).
    unfold u in *. lia.
  - intros t H.
    set (u := t - 2 * q).
    assert (Hun : 2 * r < u * nb).
    { replace (u * nb) with (t * nb - 2 * (q * nb)) by (unfold u; ring). lia. }
    assert (Hu : 0 < u).
    { apply (Z.mul_lt_mono_pos_r nb); [exact Hnb|]. lia. }
    assert (H1 : u = 1 -> 2 * r < nb) by (intros E; rewrite E in Hun; lia).
    unfold u in *. lia.
Qed.

(** The quotient of a double that is not negative by a positive one, when
    its exact value is below [2^(g+53)]: the result lies on the same side
    of every multiple [Kb * 2^g] as the exact quotient; and when the exact
    value is at least [2^(g+52)], the result is at least [Kb * 2^g] once
    the exact quotient is above the midpoint below it, and at most
    [Kb * 2^g] once it is below the midpoint above. *)
Lemma div_bounds (x L : number) (g : Z) :
  is_double x = true -> nonneg x = true ->
  is_double L = true -> nonneg L = true -> 0 < units L ->
  -53 <= g <= 0 ->
  units x < 2 ^ (g + 53) * units L ->
  exists y,
    div x L = y /\ is_double y = true /\ nonneg y = true
    /\ (forall Kb, units x * 2 ^ (- g) <= Kb * units L ->
                   units y <= Kb * 2 ^ (g + 1074))
    /\ (forall Kb, Kb * units L <= units x * 2 ^ (- g) ->
                   Kb * 2 ^ (g + 1074) <= units y)
    /\ (forall Kb, 2 ^ (g + 53) * units L <= 2 * units x ->
                   (2 * Kb - 1) * units L < 2 * (units x * 2 ^ (- g)) ->
                   Kb * 2 ^ (g + 1074) <= units y)
    /\ (forall Kb, 2 ^ (g + 53) * units L <= 2 * units x ->
                   2 * (units x * 2 ^ (- g)) < (2 * Kb + 1) * units L ->
                   units y <= Kb * 2 ^ (g + 1074)).
Proof.
  intros Hx Nx HL NL HL0 Hg Hmag.
  assert (PP : 0 < 2 ^ (g + 53)) by (apply Z.pow_pos_nonneg; lia).
  assert (PG1 : 0 < 2 ^ (g + 1074)) by (apply Z.pow_pos_nonneg; lia).
  destruct L as [sL | sL | | sL my ey]; try discriminate;
    try (exfalso; cbn [units] in HL0; lia).
  destruct sL; [discriminate|]. cbn [is_double valid_binary] in HL.
  destruct x as [sx | sx | | sx mx ex]; try discriminate.
  { (* zero divided *)
    exists (S754_zero (xorb sx false)). split; [reflexivity|].
    split; [reflexivity|]. split; [reflexivity|].
    cbn [units] in *. rewrite Z.mul_0_l.
    set (uL := Z.pos my * 2 ^ (ey + 1074)) in *.
    repeat split; intros Kb.
    - intros H. apply Z.mul_nonneg_nonneg; [|lia].
      destruct (Z_lt_le_dec Kb 0) as [Hneg|]; [|assumption]. exfalso.
      assert (Kb * uL <= (-1) * uL) by (apply Z.mul_le_mono_nonneg_r; lia). lia.
    - intros H. apply Z.mul_nonpos_nonneg; [|lia].
      destruct (Z_lt_le_dec 0 Kb) as [Hpos|]; [|assumption]. exfalso.
      assert (1 * uL <= Kb * uL) by (apply Z.mul_le_mono_nonneg_r; lia). lia.
    - intros H. exfalso.
      assert (0 < 2 ^ (g + 53) * uL) by (apply Z.mul_pos_pos; assumption). lia.
    - intros H. exfalso.
      assert (0 < 2 ^ (g + 53) * uL) by (apply Z.mul_pos_pos; assumption). lia. }
  destruct sx; [discriminate|]. cbn [is_double valid_binary] in Hx.
  cbn [units cond_Zopp] in *. clear HL0 Nx NL.
  destruct (bounded_canonical mx ex Hx) as (Hex & _ & _).
  destruct (bounded_canonical my ey HL) as (Hey & _ & _).
  pose proof (digits2_pos_spec mx) as [Hx1 Hx2].
  pose proof (digits2_pos_spec my) as [Hy1 Hy2].
  unfold div, SFdiv. cbn [xorb]. unfold SFdiv_core_binary. cbn [Zdigits2].
  rewrite fexp_eq.
  set (d1 := Zpos (digits2_pos mx)) in *. set (d2 := Zpos (digits2_pos my)) in *.
  assert (Hd1 : 1 <= d1) by (unfold d1; lia).
  assert (Hd2 : 1 <= d2) by (unfold d2; lia).
  set (e' := Z.min (Z.max (d1 + ex - (d2 + ey) - 53) (-1074)) (ex - ey)).
  set (s := ex - ey - e').
  assert (Hs : 0 <= s) by (unfold s, e'; lia).
  assert (Hm' : match s with
                | 0 => Zpos mx
                | Zpos _ => Z.shiftl (Zpos mx) s
                | Zneg _ => 0
                end = Zpos mx * 2 ^ s).
  { destruct s as [|p|p] eqn:Es; [cbn; lia | | lia].
    rewrite Z.shiftl_mul_pow2 by lia. reflexivity. }
  rewrite Hm'. clear Hm'.
  set (M := Zpos mx * 2 ^ s).
  pose proof (Z_div_mod M (Zpos my) ltac:(lia)) as Hdm.
  destruct (Z.div_eucl M (Zpos my)) as [q r]. destruct Hdm as [HM Hr].
  (* powers *)
  assert (PA : 0 < 2 ^ (ex + 1074)) by (apply Z.pow_pos_nonneg; lia).
  assert (PB : 0 < 2 ^ (ey + 1074)) by (apply Z.pow_pos_nonneg; lia).
  assert (PS : 0 < 2 ^ s) by (apply Z.pow_pos_nonneg; lia).
  (* the magnitude bounds the exponent difference *)
  assert (HA : d1 + ex - (d2 + ey) <= g + 53).
  { destruct (Z_le_gt_dec (d1 + ex - (d2 + ey)) (g + 53)) as [|Hgt]; [assumption|].
    exfalso.
    assert (H1 : 2 ^ (g + 53) * (2 ^ d2 * 2 ^ (ey + 1074))
                 <= 2 ^ (d1 - 1) * 2 ^ (ex + 1074)).
    { rewrite <- !Z.pow_add_r by lia. apply Z.pow_le_mono_r; lia. }
    set (P := 2 ^ (g + 53)) in *. set (D2 := 2 ^ d2) in *.
    set (B := 2 ^ (ey + 1074)) in *. set (D1 := 2 ^ (d1 - 1)) in *.
    set (A := 2 ^ (ex + 1074)) in *.
    assert (D1 * A <= Zpos mx * A) by (apply Z.mul_le_mono_nonneg_r; lia).
    assert (Zpos my * B < D2 * B) by (apply Z.mul_lt_mono_pos_r; lia).
    assert (P * (Zpos my * B) < P * (D2 * B)) by (apply Z.mul_lt_mono_pos_l; lia).
    lia. }
  assert (HB : e' <= g) by (unfold e'; lia).
  assert (PG : 0 < 2 ^ (g - e')) by (apply Z.pow_pos_nonneg; lia).
  (* the exact quotient, seen from the shifted dividend [M]: comparing
     [c * units x * 2^-g] with [a * units L] is comparing [c * M] with
     [a * 2^(g-e') * my] *)
  assert (HT : Zpos mx * 2 ^ (ex + 1074) * 2 ^ (- g) * 2 ^ (g - e')
               = M * 2 ^ (ey + 1074)).
  { unfold M. rewrite <- !Z.mul_assoc. f_equal.
    rewrite <- !Z.pow_add_r by lia. f_equal. unfold s. lia. }
  set (ux := Zpos mx * 2 ^ (ex + 1074)) in *.
  set (B := 2 ^ (ey + 1074)) in *. set (G := 2 ^ (g - e')) in *.
  set (G' := 2 ^ (- g)) in *.
  assert (Tle : forall a c, c * (ux * G') <= a * (Zpos my * B) ->
                            c * M <= a * G * Zpos my).
  { intros a c H. apply (Z.mul_le_mono_pos_r _ _ B); [exact PB|].
    apply (proj1 (Z.mul_le_mono_pos_r _ _ G PG)) in H.
    replace (c * M * B) with (c * (ux * G') * G)
      by (rewrite <- (Z.mul_assoc c M B), <- HT; ring).
    replace (a * G * Zpos my * B) with (a * (Zpos my * B) * G) by ring.
    exact H. }
  assert (Tge : forall a c, a * (Zpos my * B) <= c * (ux * G') ->
                            a * G * Zpos my <= c * M).
  { intros a c H. apply (Z.mul_le_mono_pos_r _ _ B); [exact PB|].
    apply (proj1 (Z.mul_le_mono_pos_r _ _ G PG)) in H.
    replace (c * M * B) with (c * (ux * G') * G)
      by (rewrite <- (Z.mul_assoc c M B), <- HT; ring).
    replace (a * G * Zpos my * B) with (a * (Zpos my * B) * G) by ring.
    exact H. }
  assert (Tlt : forall a c, c * (ux * G') < a * (Zpos my * B) ->
                            c * M < a * G * Zpos my).
  { intros a c H. apply (Z.mul_lt_mono_pos_r B); [exact PB|].
    apply (proj1 (Z.mul_lt_mono_pos_r G _ _ PG)) in H.
    replace (c * M * B) with (c * (ux * G') * G)
      by (rewrite <- (Z.mul_assoc c M B), <- HT; ring).
    replace (a * G * Zpos my * B) with (a * (Zpos my * B) * G) by ring.
    exact H. }
  assert (Tgt : forall a c, a * (Zpos my * B) < c * (ux * G') ->
                            a * G * Zpos my < c * M).
  { intros a c H. apply (Z.mul_lt_mono_pos_r B); [exact PB|].
    apply (proj1 (Z.mul_lt_mono_pos_r G _ _ PG)) in H.
    replace (c * M * B) with (c * (ux * G') * G)
      by (rewrite <- (Z.mul_assoc c M B), <- HT; ring).
    replace (a * G * Zpos my * B) with (a * (Zpos my * B) * G) by ring.
    exact H. }
  assert (PG' : 0 < G') by (apply Z.pow_pos_nonneg; lia).
  assert (Q6 : 2 ^ (g + 53) = 2 ^ 53 * 2 ^ g -> True) by trivial. clear Q6.
  assert (Q7 : 2 ^ (g + 53) * G' = 2 ^ 53).
  { unfold G'. rewrite <- Z.pow_add_r by lia. f_equal. lia. }
  assert (HM0 : 0 <= M) by (apply Z.mul_nonneg_nonneg; lia).
  assert (P53 : 0 < 2 ^ 53) by reflexivity.
  (* below [2^(g+53)] *)
  assert (HC : M < 2 ^ 53 * G * Zpos my).
  { replace M with (1 * M) by ring. apply Tlt.
    apply (proj1 (Z.mul_lt_mono_pos_r G' _ _ PG')) in Hmag.
    replace (2 ^ 53 * (Zpos my * B)) with (2 ^ (g + 53) * (Zpos my * B) * G')
      by (rewrite <- Q7; ring).
    lia. }
  assert (Hq0 : 0 <= q).
  { destruct (Z_lt_le_dec q 0) as [Hneg|]; [|assumption]. exfalso.
    assert (Zpos my * q <= Zpos my * (-1)) by (apply Z.mul_le_mono_nonneg_l; lia).
    lia. }
  assert (Q8 : 2 ^ (g + 53 - e') = 2 ^ 53 * G).
  { unfold G. rewrite <- Z.pow_add_r by lia. f_equal. lia. }
  assert (HD : Zdigits2 q <= g + 53 - e').
  { apply Zdigits2_le; [exact Hq0 | lia |]. rewrite Q8.
    apply (Z.mul_lt_mono_pos_r (Zpos my)); [lia|].
    set (c53 := 2 ^ 53) in *. lia. }
  assert (HE : -1074 < e' -> 53 <= Zdigits2 q).
  { intros He. apply (Zdigits2_ge q 52); [lia|].
    assert (Hs53 : 53 + d2 - d1 <= s) by (unfold s, e' in *; lia).
    assert (H1 : 2 ^ 52 * 2 ^ d2 <= 2 ^ (d1 - 1) * 2 ^ s).
    { rewrite <- !Z.pow_add_r by lia. apply Z.pow_le_mono_r; lia. }
    unfold M in HM.
    set (D2 := 2 ^ d2) in *. set (D1 := 2 ^ (d1 - 1)) in *. set (S := 2 ^ s) in *.
    assert (P52 : 0 < 2 ^ 52) by reflexivity.
    set (c52 := 2 ^ 52) in *.
    assert (D1 * S <= Zpos mx * S) by (apply Z.mul_le_mono_nonneg_r; lia).
    assert (c52 * Zpos my < c52 * D2) by (apply Z.mul_lt_mono_pos_l; lia).
    assert (Zpos my * c52 < Zpos my * (q + 1)) by lia.
    assert (c52 < q + 1) by (apply (Z.mul_lt_mono_pos_l (Zpos my)); lia).
    lia. }
  (* from [2^(g+52)] on, the result's grid is [2^g] *)
  assert (HF : 2 ^ (g + 53) * (Zpos my * B) <= 2 * ux ->
               Z.max (Zdigits2 q + e' - 53) (-1074) = g).
  { intros H.
    assert (H2 : 2 ^ 53 * G * Zpos my <= 2 * M).
    { apply Tge.
      apply (proj1 (Z.mul_le_mono_pos_r _ _ G' PG')) in H.
      replace (2 ^ 53 * (Zpos my * B)) with (2 ^ (g + 53) * (Zpos my * B) * G')
        by (rewrite <- Q7; ring).
      lia. }
    assert (H3 : 2 ^ 52 * G <= q).
    { change (2 ^ 53) with (2 * 2 ^ 52) in H2.
      assert (P52 : 0 < 2 ^ 52) by reflexivity.
      set (c52 := 2 ^ 52) in *.
      assert (c52 * G < q + 1); [|lia].
      apply (Z.mul_lt_mono_pos_l (Zpos my)); [lia|]. lia. }
    assert (H4 : g + 53 - e' <= Zdigits2 q).
    { replace (g + 53 - e') with (52 + (g - e') + 1) by lia.
      apply Zdigits2_ge; [lia|]. rewrite Z.pow_add_r by lia. exact H3. }
    lia. }
  destruct (Zdigits2_spec q Hq0) as (Hdq0 & _ & _).
  destruct (binary_round_aux_loc_bounds q e' (new_location (Zpos my) r))
    as (y & Hy' & Hyd & Hyn & Hlo & Hhi & Hlo2 & Hhi2);
    [exact Hq0 | rewrite fexp_eq; lia |].
  rewrite fexp_eq in Hlo, Hhi, Hlo2, Hhi2.
  set (e1 := Z.max (Zdigits2 q + e' - 53) (-1074)) in *.
  assert (He1 : e' <= e1 <= g) by (unfold e1; lia).
  exists y. split; [exact Hy'|]. split; [exact Hyd|]. split; [exact Hyn|].
  assert (Q1 : G = 2 ^ (g - e1) * 2 ^ (e1 - e')).
  { unfold G. rewrite <- Z.pow_add_r by lia. f_equal. lia. }
  assert (Q2 : 2 ^ (e1 - e' + 2) = 4 * 2 ^ (e1 - e')).
  { rewrite Z.pow_add_r by lia. change (2 ^ 2) with 4. ring. }
  assert (Q2' : 2 ^ (e1 - e' + 1) = 2 * 2 ^ (e1 - e')).
  { rewrite Z.pow_add_r by lia. change (2 ^ 1) with 2. ring. }
  assert (Q3 : 2 ^ (g + 1074) = 2 ^ (g - e1) * 2 ^ (e1 + 1074)).
  { rewrite <- Z.pow_add_r by lia. f_equal. lia. }
  destruct (quotient_bits M (Zpos my) q r) as (Hb1 & Hb2 & Hb3 & Hb4);
    [lia | exact HM | exact Hr |].
  set (X := 4 * q + loc_bits (new_location (Zpos my) r)) in *.
  rewrite Q3. rewrite Q2 in Hlo, Hhi. rewrite Q2' in Hlo2, Hhi2.
  assert (HU1 : e1 = g -> 2 ^ (g - e1) = 1).
  { intros ->. rewrite Z.sub_diag. reflexivity. }
  clearbody M e' X. clear Hmag HC HD HE HA HT.
  set (U := 2 ^ (g - e1)) in *. set (V := 2 ^ (e1 - e')) in *.
  set (C := 2 ^ (e1 + 1074)) in *.
  repeat split; intros Kb.
  - intros H. rewrite Z.mul_assoc. apply Hhi.
    assert (H' : 1 * M <= Kb * G * Zpos my) by (apply Tle; lia).
    specialize (Hb2 (Kb * G) ltac:(lia)). rewrite Q1 in Hb2. lia.
  - intros H. rewrite Z.mul_assoc. apply Hlo.
    assert (H' : Kb * G * Zpos my <= 1 * M) by (apply Tge; lia).
    specialize (Hb1 (Kb * G) ltac:(lia)). rewrite Q1 in Hb1. lia.
  - intros Hbin H. specialize (HF Hbin). fold e1 in HF.
    rewrite Z.mul_assoc. apply Hlo2.
    assert (H' : (2 * Kb - 1) * G * Zpos my < 2 * M) by (apply Tgt; lia).
    specialize (Hb3 ((2 * Kb - 1) * G) ltac:(lia)).
    rewrite Q1, (HU1 HF) in Hb3. rewrite (HU1 HF). lia.
  - intros Hbin H. specialize (HF Hbin). fold e1 in HF.
    rewrite Z.mul_assoc. apply Hhi2.
    assert (H' : 2 * M < (2 * Kb + 1) * G * Zpos my) by (apply Tlt; lia).
    specialize (Hb4 ((2 * Kb + 1) * G) ltac:(lia)).
    rewrite Q1, (HU1 HF) in Hb4. rewrite (HU1 HF). lia.
Qed.

Lemma leb_units_inv (x y : number) :
  is_double x = true -> nonneg x = true ->
  is_double y = true -> nonneg y = true ->
  leb x y = true -> units x <= units y.
Proof.
  intros Hx Nx Hy Ny. unfold leb, SFleb.
  rewrite (SFcompare_units x y Hx Nx Hy Ny).
  destruct (Z.compare_spec (units x) (units y)); try discriminate; lia.
Qed.

Lemma ltb_units_eq (x y : number) :
  is_double x = true -> nonneg x = true ->
  is_double y = true -> nonneg y = true ->
  ltb x y = (units x <? units y).
Proof.
  intros Hx Nx Hy Ny. unfold ltb, SFltb.
  rewrite (SFcompare_units x y Hx Nx Hy Ny). unfold Z.ltb.
  destruct (units x ?= units y); reflexivity.
Qed.

Lemma units_of_Z_1 : units (of_Z 1) = 2 ^ 1074.
Proof. vm_compute. reflexivity. Qed.

Lemma units_of_Z_1024 : units (of_Z 1024) = 1024 * 2 ^ 1074.
Proof. vm_compute. reflexivity. Qed.

Lemma units_nonneg (y : number) : nonneg y = true -> 0 <= units y.
Proof.
  destruct y as [s | s | | s m e]; try discriminate; cbn [units]; try lia.
  destruct s; [discriminate|]. intros _. cbn [cond_Zopp]. lia.
Qed.

(** A double from 1 on is finite and positive. *)
Lemma from_one_finite (x : number) :
  from_one x = true ->
  is_double x = true /\ nonneg x = true /\ 2 ^ 1074 <= units x.
Proof.
  unfold from_one. intros H.
  apply andb_prop in H. destruct H as [H Hle]. apply andb_prop in H.
  destruct H as [Hd Hn].
  pose proof (leb_units_inv (of_Z 1) x eq_refl eq_refl Hd Hn Hle) as Hu.
  rewrite units_of_Z_1 in Hu. repeat split; assumption.
Qed.

(** [Math.floor] of a double that is not negative is the whole part of its
    value. *)
Lemma whole_floor (y : number) :
  is_double y = true -> nonneg y = true ->
  whole (Math_floor y) = Some (units y / 2 ^ 1074).
Proof.
  intros Hy Ny. destruct y as [s | s | | s m e]; try discriminate.
  - cbn [Math_floor whole units]. rewrite Z.div_0_l; [reflexivity|].
    apply Z.pow_nonzero; lia.
  - destruct s; [discriminate|]. cbn [is_double valid_binary] in Hy.
    destruct (bounded_canonical m e Hy) as (He & _ & _).
    pose proof (bounded_lt_pow m e Hy) as Hm.
    cbn [Math_floor units cond_Zopp].
    assert (PC : 0 < 2 ^ (e + 1074)) by (apply Z.pow_pos_nonneg; lia).
    destruct (Z.leb_spec 0 e) as [Hpos | Hneg].
    + cbn [whole cond_Zopp].
      replace (0 <=? e) with true by (symmetry; apply Z.leb_le; exact Hpos).
      rewrite Z.pow_add_r by lia. rewrite Z.mul_assoc, Z.div_mul; [reflexivity|].
      apply Z.pow_nonzero; lia.
    + assert (PE : 0 < 2 ^ (- e)) by (apply Z.pow_pos_nonneg; lia).
      assert (Hdiv : Zpos m * 2 ^ (e + 1074) / 2 ^ 1074 = Zpos m / 2 ^ (- e)).
      { replace (2 ^ 1074) with (2 ^ (- e) * 2 ^ (e + 1074))
          by (rewrite <- Z.pow_add_r by lia; f_equal; lia).
        apply Z.div_mul_cancel_r; lia. }
      rewrite Hdiv.
      pose proof (Z.div_pos (Zpos m) (2 ^ (- e)) ltac:(lia) PE) as Hq0.
      assert (Hq53 : Zpos m / 2 ^ (- e) < 2 ^ 53).
      { apply Z.div_lt_upper_bound; [exact PE|].
        set (c53 := 2 ^ 53) in *. set (T := 2 ^ (- e)) in *.
        assert (c53 * 1 <= T * c53)
          by (rewrite (Z.mul_comm T); apply Z.mul_le_mono_nonneg_l; lia).
        lia. }
      set (q := Zpos m / 2 ^ (- e)) in *.
      destruct (Z.eqb_spec q 0) as [H0 | H0].
      * rewrite H0. reflexivity.
      * destruct (of_Z_finite q) as (m' & e' & -> & _ & He' & Hm' & _); [lia|].
        cbn [whole cond_Zopp].
        destruct (Z.leb_spec 0 e') as [Hp | Hn'].
        -- replace e' with 0 in * by lia. rewrite Hm'. cbn. f_equal. lia.
        -- rewrite Hm'. rewrite Z.mod_mul by (apply Z.pow_nonzero; lia).
           cbn [Z.eqb]. rewrite Z.div_mul by (apply Z.pow_nonzero; lia).
           reflexivity.
Qed.

Lemma SFeqb_from_one (bytes : number) :
  from_one bytes = true -> SFeqb bytes (of_Z 0) = false.
Proof.
  intros Hb. destruct (from_one_finite bytes Hb) as (Hd & Hn & Hu).
  unfold SFeqb. rewrite (SFcompare_units bytes (of_Z 0) Hd Hn eq_refl eq_refl).
  change (units (of_Z 0)) with 0.
  assert (0 < 2 ^ 1074) by (apply Z.pow_pos_nonneg; lia).
  set (C := 2 ^ 1074) in *.
  destruct (Z.compare_spec (units bytes) 0); try reflexivity. lia.
Qed.

(** The two logarithms that [formatBytes] divides, for [bytes] from 1 on. *)
Lemma log_operands (Math_log : number -> number) (bytes : number) :
  log_assumptions Math_log -> from_one bytes = true ->
  is_double (Math_log bytes) = true /\ nonneg (Math_log bytes) = true /\
  is_double (Math_log k) = true /\ nonneg (Math_log k) = true /\
  2 ^ 1074 <= units (Math_log k) /\
  0 <= units (Math_log bytes) <= 1024 * units (Math_log k).
Proof.
  intros [Hrange _ Hk _ _] Hb.
  destruct (Hrange k eq_refl) as (HLd & HLn & _).
  destruct (Hrange bytes Hb) as (Hxd & Hxn & Hx1024).
  pose proof (leb_units_inv (of_Z 1) (Math_log k) eq_refl eq_refl HLd HLn Hk) as HL1.
  pose proof (leb_units_inv (Math_log bytes) (of_Z 1024) Hxd Hxn eq_refl eq_refl
                Hx1024) as Hx.
  rewrite units_of_Z_1 in HL1. rewrite units_of_Z_1024 in Hx.
  pose proof (units_nonneg (Math_log bytes) Hxn) as Hx0.
  assert (0 < 2 ^ 1074) by (apply Z.pow_pos_nonneg; lia).
  set (C := 2 ^ 1074) in *.
  repeat split; try assumption. lia.
Qed.

(** What [formatBytes] returns, from the quotient of the logarithms: the
    index is its whole part. *)
Lemma formatBytes_of_quotient (Math_log : number -> number)
    (bytes : number) (decimals : Z) (y : number) (i : Z) :
  from_one bytes = true -> decimals <= 100 ->
  div (Math_log bytes) (Math_log k) = y ->
  is_double y = true -> nonneg y = true ->
  i * 2 ^ 1074 <= units y < (i + 1) * 2 ^ 1074 ->
  whole (unitIndex Math_log bytes) = Some i /\ 0 <= i /\
  formatBytes Math_log bytes decimals =
    Quantity bytes (unitIndex Math_log bytes) (Z.max 0 decimals)
      (nth_error sizes (Z.to_nat i)).
Proof.
  intros Hb Hdec Hy Hyd Hyn Hi.
  assert (P1074 : 0 < 2 ^ 1074) by (apply Z.pow_pos_nonneg; lia).
  pose proof (units_nonneg y Hyn) as Hy0.
  assert (Hq : units y / 2 ^ 1074 = i).
  { symmetry. apply (Z.div_unique _ _ i (units y - i * 2 ^ 1074)).
    - left. set (C := 2 ^ 1074) in *. lia.
    - ring. }
  assert (Hw : whole (unitIndex Math_log bytes) = Some i).
  { unfold unitIndex. rewrite Hy, whole_floor by assumption. now rewrite Hq. }
  assert (Hi0 : 0 <= i).
  { rewrite <- Hq. apply Z.div_pos; lia. }
  split; [exact Hw|]. split; [exact Hi0|].
  unfold formatBytes. rewrite (SFeqb_from_one bytes Hb).
  assert (Hdm : (if decimals <? 0 then 0 else decimals) = Z.max 0 decimals).
  { destruct (Z.ltb_spec decimals 0); lia. }
  rewrite Hdm.
  replace (100 <? Z.max 0 decimals) with false by (symmetry; apply Z.ltb_ge; lia).
  unfold at_index. rewrite Hw.
  replace (i <? 0) with false by (symmetry; apply Z.ltb_ge; lia).
  reflexivity.
Qed.

(** C10, amended: with a logarithm that meets [log_assumptions],
    [formatBytes(0)] is '0 Bytes'; for every finite [bytes] with
    [1 <= bytes <= 1024^4 - 1], so for every whole number of bytes below
    [1024^4], the index [Math.floor(Math.log(bytes) / Math.log(1024))] is a
    whole number from 0 to 3 and the unit is the element of [sizes] at that
    index; for every finite [bytes >= 1024^4] the index is a whole number
    of at least 4, outside the array, and the unit is [undefined].  Up to
    100 digits are asked for. *)
Theorem formatBytes_unit_index (Math_log : number -> number) :
  log_assumptions Math_log ->
  (forall decimals, formatBytes Math_log (of_Z 0) decimals = Text "0 Bytes"%string)
  /\ (forall bytes decimals,
        from_one bytes = true -> leb bytes (of_Z (1024 ^ 4 - 1)) = true ->
        decimals <= 100 ->
        exists i u,
          whole (unitIndex Math_log bytes) = Some i /\ 0 <= i <= 3 /\
          nth_error sizes (Z.to_nat i) = Some u /\
          formatBytes Math_log bytes decimals =
            Quantity bytes (unitIndex Math_log bytes) (Z.max 0 decimals) (Some u))
  /\ (forall bytes decimals,
        from_one bytes = true -> leb (of_Z (1024 ^ 4)) bytes = true ->
        decimals <= 100 ->
        exists i,
          whole (unitIndex Math_log bytes) = Some i /\ 4 <= i /\
          formatBytes Math_log bytes decimals =
            Quantity bytes (unitIndex Math_log bytes) (Z.max 0 decimals) None).
Proof.
  intros Hlog. pose proof Hlog as [Hrange Hmono Hk Hbelow Hat].
  assert (P1074 : 0 < 2 ^ 1074) by (apply Z.pow_pos_nonneg; lia).
  split; [|split].
  - intros decimals. reflexivity.
  - intros bytes decimals Hb Hle Hdec.
    destruct (log_operands Math_log bytes Hlog Hb)
      as (Hxd & Hxn & HLd & HLn & HL1 & Hx0 & Hx1024).
    destruct (Hrange (of_Z (1024 ^ 4 - 1)) eq_refl) as (Hmd & Hmn & _).
    pose proof (leb_units_inv _ _ Hxd Hxn Hmd Hmn
                  (Hmono bytes (of_Z (1024 ^ 4 - 1)) Hb eq_refl Hle)) as Hx.
    set (ux := units (Math_log bytes)) in *. set (uL := units (Math_log k)) in *.
    assert (Hup : ux * 2 ^ 51 <= (2 ^ 53 - 1) * uL).
    { assert (0 <= 2 ^ 51) by lia. set (c51 := 2 ^ 51) in *.
      assert (ux * c51 <= units (Math_log (of_Z (1024 ^ 4 - 1))) * c51)
        by (apply Z.mul_le_mono_nonneg_r; assumption).
      lia. }
    assert (Hmag : ux < 2 ^ (-51 + 53) * uL).
    { change (2 ^ (-51 + 53)) with 4.
      change (2 ^ 53 - 1) with (4 * 2 ^ 51 - 1) in Hup.
      assert (0 < 2 ^ 51) by reflexivity. set (c51 := 2 ^ 51) in *.
      apply (Z.mul_lt_mono_pos_r c51); [assumption|].
      set (C := 2 ^ 1074) in *. lia. }
    destruct (div_bounds (Math_log bytes) (Math_log k) (-51) Hxd Hxn HLd HLn
                ltac:(fold uL; set (C := 2 ^ 1074) in *; lia) ltac:(lia) Hmag)
      as (y & Hy & Hyd & Hyn & Hhi & _).
    specialize (Hhi (2 ^ 53 - 1) Hup).
    pose proof (units_nonneg y Hyn) as Hy0.
    set (i := units y / 2 ^ 1074).
    assert (Hi : i * 2 ^ 1074 <= units y < (i + 1) * 2 ^ 1074).
    { unfold i. pose proof (Z.mul_div_le (units y) (2 ^ 1074) P1074).
      pose proof (Z.mul_succ_div_gt (units y) (2 ^ 1074) P1074).
      set (C := 2 ^ 1074) in *. lia. }
    assert (Hi03 : 0 <= i <= 3).
    { split; [apply Z.div_pos; lia|].
      apply Z.lt_succ_r. apply Z.div_lt_upper_bound; [lia|].
      replace (2 ^ 1074) with (2 ^ 51 * 2 ^ (-51 + 1074))
        by (rewrite <- Z.pow_add_r by lia; reflexivity).
      assert (0 < 2 ^ (-51 + 1074)) by (apply Z.pow_pos_nonneg; lia).
      change (2 ^ 53 - 1) with (4 * 2 ^ 51 - 1) in Hhi.
      assert (0 < 2 ^ 51) by reflexivity.
      set (c51 := 2 ^ 51) in *. set (C := 2 ^ (-51 + 1074)) in *.
      assert (0 < c51 * C) by (apply Z.mul_pos_pos; assumption).
      replace ((4 * c51 - 1) * C) with (4 * (c51 * C) - C) in Hhi by ring.
      replace (c51 * C * Z.succ 3) with (4 * (c51 * C)) by ring.
      lia. }
    destruct (formatBytes_of_quotient Math_log bytes decimals y i
                Hb Hdec Hy Hyd Hyn Hi) as (Hw & _ & Hf).
    assert (Hu : exists u, nth_error sizes (Z.to_nat i) = Some u).
    { assert (Hc : i = 0 \/ i = 1 \/ i = 2 \/ i = 3) by lia.
      destruct Hc as [-> | [-> | [-> | ->]]]; eexists; reflexivity. }
    destruct Hu as [u Hu].
    exists i, u. split; [exact Hw|]. split; [exact Hi03|]. split; [exact Hu|].
    rewrite Hf, Hu. reflexivity.
  - intros bytes decimals Hb Hle Hdec.
    destruct (log_operands Math_log bytes Hlog Hb)
      as (Hxd & Hxn & HLd & HLn & HL1 & Hx0 & Hx1024).
    destruct (Hrange (of_Z (1024 ^ 4)) eq_refl) as (Hmd & Hmn & _).
    pose proof (leb_units_inv _ _ Hmd Hmn Hxd Hxn
                  (Hmono (of_Z (1024 ^ 4)) bytes eq_refl Hb Hle)) as Hx.
    set (ux := units (Math_log bytes)) in *. set (uL := units (Math_log k)) in *.
    assert (Hmag : ux < 2 ^ (-42 + 53) * uL).
    { change (2 ^ (-42 + 53)) with 2048. set (C := 2 ^ 1074) in *. lia. }
    destruct (div_bounds (Math_log bytes) (Math_log k) (-42) Hxd Hxn HLd HLn
                ltac:(fold uL; set (C := 2 ^ 1074) in *; lia) ltac:(lia) Hmag)
      as (y & Hy & Hyd & Hyn & _ & Hlo & _).
    assert (Hy4 : 4 * 2 ^ 1074 <= units y).
    { replace (4 * 2 ^ 1074) with (2 ^ 44 * 2 ^ (-42 + 1074))
        by (rewrite <- Z.pow_add_r by lia; reflexivity).
      apply Hlo. fold ux uL.
      change (2 ^ 44) with (4 * 2 ^ 42). change (- -42) with 42.
      assert (0 < 2 ^ 42) by reflexivity. set (c42 := 2 ^ 42) in *.
      assert (4 * uL * c42 <= ux * c42) by (apply Z.mul_le_mono_nonneg_r; lia).
      lia. }
    set (i := units y / 2 ^ 1074).
    assert (Hi : i * 2 ^ 1074 <= units y < (i + 1) * 2 ^ 1074).
    { unfold i. pose proof (Z.mul_div_le (units y) (2 ^ 1074) P1074).
      pose proof (Z.mul_succ_div_gt (units y) (2 ^ 1074) P1074).
      set (C := 2 ^ 1074) in *. lia. }
    assert (Hi4 : 4 <= i).
    { apply Z.div_le_lower_bound; [lia|]. rewrite Z.mul_comm. exact Hy4. }
    destruct (formatBytes_of_quotient Math_log bytes decimals y i
                Hb Hdec Hy Hyd Hyn Hi) as (Hw & _ & Hf).
    exists i. split; [exact Hw|]. split; [exact Hi4|].
    rewrite Hf. f_equal. apply nth_error_None. cbn [sizes List.length]. lia.
Qed.

Lemma sample_log_values (x : number) :
  In (sample_log x)
     [of_Z 0; ln_1023; ln_1024; ln_1024_2_minus_1; ln_1024_2;
      ln_1024_3_minus_1; ln_1024_3; ln_1024_4_minus_1; ln_1024_4].
Proof.
  unfold sample_log.
  repeat match goal with
         | |- context [if ?b then _ else _] => destruct b
         end; cbn [In]; tauto.
Qed.

(** The sample logarithm never decreases. *)
Lemma sample_log_monotone (x y : number) :
  from_one x = true -> from_one y = true -> leb x y = true ->
  leb (sample_log x) (sample_log y) = true.
Proof.
  intros Hx Hy Hle.
  destruct (from_one_finite x Hx) as (Hxd & Hxn & _).
  destruct (from_one_finite y Hy) as (Hyd & Hyn & _).
  pose proof (leb_units_inv x y Hxd Hxn Hyd Hyn Hle) as Hu.
  unfold sample_log.
  rewrite !(ltb_units_eq x) by (try assumption; reflexivity).
  rewrite !(ltb_units_eq y) by (try assumption; reflexivity).
  generalize dependent (units (of_Z 1023)). intros C1.
  generalize dependent (units (of_Z 1024)). intros C2.
  generalize dependent (units (of_Z (1024 ^ 2 - 1))). intros C3.
  generalize dependent (units (of_Z (1024 ^ 2))). intros C4.
  generalize dependent (units (of_Z (1024 ^ 3 - 1))). intros C5.
  generalize dependent (units (of_Z (1024 ^ 3))). intros C6.
  generalize dependent (units (of_Z (1024 ^ 4 - 1))). intros C7.
  generalize dependent (units just_below_1024_4). intros C8.
  generalize dependent (units x). intros ux.
  generalize dependent (units y). intros uy Hu.
  repeat match goal with
         | |- context [if (?a <? ?b) then _ else _] =>
             destruct (Z.ltb_spec a b)
         end; try lia; reflexivity.
Qed.

(** The sample logarithm meets the assumptions. *)
Lemma sample_log_assumptions : log_assumptions sample_log.
Proof.
  constructor.
  - intros x _. pose proof (sample_log_values x) as H. cbn [In] in H.
    repeat (destruct H as [<- | H]; [repeat split; reflexivity|]).
    contradiction.
  - exact sample_log_monotone.
  - reflexivity.
  - apply Z.leb_le. vm_compute. reflexivity.
  - apply Z.leb_le. vm_compute. reflexivity.
Qed.

Lemma formatBytes_unit_index_witness :
  formatBytes sample_log (of_Z 0) 2 = Text "0 Bytes"%string
  /\ (exists i u,
        whole (unitIndex sample_log (of_Z (1024 ^ 4 - 1))) = Some i /\
        0 <= i <= 3 /\
        nth_error sizes (Z.to_nat i) = Some u /\
        formatBytes sample_log (of_Z (1024 ^ 4 - 1)) 2 =
          Quantity (of_Z (1024 ^ 4 - 1))
            (unitIndex sample_log (of_Z (1024 ^ 4 - 1))) (Z.max 0 2) (Some u))
  /\ (exists i,
        whole (unitIndex sample_log (of_Z (1024 ^ 4))) = Some i /\ 4 <= i /\
        formatBytes sample_log (of_Z (1024 ^ 4)) 2 =
          Quantity (of_Z (1024 ^ 4)) (unitIndex sample_log (of_Z (1024 ^ 4)))
            (Z.max 0 2) None).
Proof.
  destruct (formatBytes_unit_index sample_log sample_log_assumptions)
    as (Hzero & Hmid & Hbig).
  split; [apply Hzero|]. split.
  - apply Hmid; [reflexivity | reflexivity | lia].
  - apply Hbig; [reflexivity | reflexivity | lia].
Defined.

(** C10 as stated fails between [1024^4 - 1] and [1024^4]: at
    [bytes = 1024^4 - 2^-13], the largest double below [1024^4], the
    logarithm rounds to that of [1024^4], the quotient is exactly 4, and
    the unit lookup is out of range. *)
Lemma formatBytes_index_out_of_bounds_below_1024_4 :
  leb (of_Z 1) just_below_1024_4 = true
  /\ ltb just_below_1024_4 (of_Z (1024 ^ 4)) = true
  /\ whole (unitIndex sample_log just_below_1024_4) = Some 4
  /\ formatBytes sample_log just_below_1024_4 2 =
       Quantity just_below_1024_4 (of_Z 4) 2 None.
Proof.
  repeat split; vm_compute; reflexivity.
Qed.

(** The sample logarithm is accurate around the powers of 1024. *)
Lemma sample_log_anchors : log_anchors sample_log.
Proof.
  constructor.
  - apply Z.leb_le. vm_compute. reflexivity.
  - apply Z.leb_le. vm_compute. reflexivity.
  - apply Z.leb_le. vm_compute. reflexivity.
  - apply Z.leb_le. vm_compute. reflexivity.
  - apply Z.ltb_lt. vm_compute. reflexivity.
Qed.

(** X12: which unit [formatBytes] selects below [1024^4].  With a
    logarithm that meets [log_assumptions] and [log_anchors], for
    [j = 0, 1, 2, 3] and every finite [bytes] with
    [1024^j <= bytes <= 1024^(j+1) - 1], so for every whole number of
    bytes from [1024^j] and below [1024^(j+1)], the index
    [Math.floor(Math.log(bytes) / Math.log(1024))] is [j] and the unit is
    [sizes[j]]: 'Bytes' below 1024, 'KB' below [1024^2], 'MB' below
    [1024^3], 'GB' below [1024^4].  Up to 100 digits are asked for. *)
Theorem formatBytes_unit_by_range (Math_log : number -> number)
    (bytes : number) (decimals j : Z) :
  log_assumptions Math_log -> log_anchors Math_log ->
  from_one bytes = true -> 0 <= j <= 3 ->
  leb (of_Z (1024 ^ j)) bytes = true ->
  leb bytes (of_Z (1024 ^ (j + 1) - 1)) = true ->
  decimals <= 100 ->
  whole (unitIndex Math_log bytes) = Some j /\
  formatBytes Math_log bytes decimals =
    Quantity bytes (unitIndex Math_log bytes) (Z.max 0 decimals)
      (nth_error sizes (Z.to_nat j)).
Proof.
  intros Hlog Hanc Hb Hj Hlo Hhi Hdec.
  pose proof Hlog as [Hrange Hmono Hk Hbelow4 Hat4].
  destruct Hanc as [Hbelow1 Hbelow2 Hat2 Hbelow3 Hat3].
  destruct (log_operands Math_log bytes Hlog Hb)
    as (Hxd & Hxn & HLd & HLn & HL1 & Hx0 & Hx1024).
  assert (P1074 : 0 < 2 ^ 1074) by (apply Z.pow_pos_nonneg; lia).
  assert (HL0 : 0 < units (Math_log k)) by (set (C := 2 ^ 1074) in *; lia).
  (* the logarithm of [bytes] between those of the ends of the range *)
  assert (Hends : units (Math_log (of_Z (1024 ^ j))) <= units (Math_log bytes)
                  <= units (Math_log (of_Z (1024 ^ (j + 1) - 1)))).
  { assert (Hpair : forall a b,
              from_one a = true -> from_one b = true ->
              leb a bytes = true -> leb bytes b = true ->
              units (Math_log a) <= units (Math_log bytes) <= units (Math_log b)).
    { intros a b Ha Hb' Hab Hbb.
      destruct (Hrange a Ha) as (Had & Han & _).
      destruct (Hrange b Hb') as (Hbd & Hbn & _).
      split.
      - apply (leb_units_inv _ _ Had Han Hxd Hxn). now apply Hmono.
      - apply (leb_units_inv _ _ Hxd Hxn Hbd Hbn). now apply Hmono. }
    assert (Hc : j = 0 \/ j = 1 \/ j = 2 \/ j = 3) by lia.
    destruct Hc as [-> | [-> | [-> | ->]]];
      apply Hpair; try assumption; reflexivity. }
  clear Hlo Hhi Hmono Hrange Hk.
  set (ux := units (Math_log bytes)) in *. set (uL := units (Math_log k)) in *.
  assert (Hqu : exists y,
             div (Math_log bytes) (Math_log k) = y /\ is_double y = true /\
             nonneg y = true /\
             j * 2 ^ 1074 <= units y < (j + 1) * 2 ^ 1074).
  { assert (Hc : j = 0 \/ j = 1 \/ j = 2 \/ j = 3) by lia.
    destruct Hc as [-> | [-> | [-> | ->]]].
    - (* below 1024: the quotient is at most the double below 1 *)
      change (1024 ^ (0 + 1) - 1) with (1024 - 1) in Hends.
      assert (Hup : ux * 2 ^ 53 <= (2 ^ 53 - 1) * uL).
      { assert (0 <= 2 ^ 53) by lia. set (c := 2 ^ 53) in *.
        assert (ux * c <= units (Math_log (of_Z (1024 - 1))) * c)
          by (apply Z.mul_le_mono_nonneg_r; lia).
        lia. }
      assert (Hmag : ux < 2 ^ (-53 + 53) * uL).
      { change (2 ^ (-53 + 53)) with 1.
        assert (0 < 2 ^ 53) by reflexivity. set (c := 2 ^ 53) in *.
        apply (Z.mul_lt_mono_pos_r c); [assumption|]. lia. }
      destruct (div_bounds (Math_log bytes) (Math_log k) (-53) Hxd Hxn HLd HLn
                  HL0 ltac:(lia) Hmag) as (y & Hy & Hyd & Hyn & Hhi & _).
      specialize (Hhi (2 ^ 53 - 1) Hup).
      pose proof (units_nonneg y Hyn) as Hy0.
      exists y. split; [exact Hy|]. split; [exact Hyd|]. split; [exact Hyn|].
      split; [rewrite Z.mul_0_l; exact Hy0|].
      replace (2 ^ 1074) with (2 ^ 53 * 2 ^ (-53 + 1074))
        by (rewrite <- Z.pow_add_r by lia; reflexivity).
      assert (0 < 2 ^ (-53 + 1074)) by (apply Z.pow_pos_nonneg; lia).
      set (c := 2 ^ 53) in *. set (C := 2 ^ (-53 + 1074)) in *.
      replace ((c - 1) * C) with (c * C - C) in Hhi by ring. lia.
    - (* from 1024 and below 1024^2 *)
      change (1024 ^ (1 + 1) - 1) with (1024 ^ 2 - 1) in Hends.
      change (of_Z (1024 ^ 1)) with k in Hends. fold uL in Hends.
      assert (Hup : ux * 2 ^ 52 <= (2 ^ 53 - 1) * uL).
      { assert (0 <= 2 ^ 52) by lia. set (c := 2 ^ 52) in *.
        assert (ux * c <= units (Math_log (of_Z (1024 ^ 2 - 1))) * c)
          by (apply Z.mul_le_mono_nonneg_r; lia).
        lia. }
      assert (Hmag : ux < 2 ^ (-52 + 53) * uL).
      { change (2 ^ (-52 + 53)) with 2.
        change (2 ^ 53 - 1) with (2 * 2 ^ 52 - 1) in Hup.
        assert (0 < 2 ^ 52) by reflexivity. set (c := 2 ^ 52) in *.
        apply (Z.mul_lt_mono_pos_r c); [assumption|]. lia. }
      destruct (div_bounds (Math_log bytes) (Math_log k) (-52) Hxd Hxn HLd HLn
                  HL0 ltac:(lia) Hmag) as (y & Hy & Hyd & Hyn & Hhi & Hlo & _).
      specialize (Hhi (2 ^ 53 - 1) Hup).
      assert (Hdn : 2 ^ 52 * uL <= ux * 2 ^ (- -52)).
      { change (- -52) with 52. assert (0 <= 2 ^ 52) by lia.
        set (c := 2 ^ 52) in *.
        assert (uL * c <= ux * c) by (apply Z.mul_le_mono_nonneg_r; lia). lia. }
      specialize (Hlo (2 ^ 52) Hdn).
      exists y. split; [exact Hy|]. split; [exact Hyd|]. split; [exact Hyn|].
      split.
      + replace (1 * 2 ^ 1074) with (2 ^ 52 * 2 ^ (-52 + 1074))
          by (rewrite <- Z.pow_add_r by lia; reflexivity).
        exact Hlo.
      + replace (2 ^ 1074) with (2 ^ 52 * 2 ^ (-52 + 1074))
          by (rewrite <- Z.pow_add_r by lia; reflexivity).
        assert (0 < 2 ^ (-52 + 1074)) by (apply Z.pow_pos_nonneg; lia).
        change (2 ^ 53 - 1) with (2 * 2 ^ 52 - 1) in Hhi.
        set (c := 2 ^ 52) in *. set (C := 2 ^ (-52 + 1074)) in *.
        replace ((2 * c - 1) * C) with (2 * (c * C) - C) in Hhi by ring. lia.
    - (* from 1024^2 and below 1024^3 *)
      change (1024 ^ (2 + 1) - 1) with (1024 ^ 3 - 1) in Hends.
      assert (Hup : ux * 2 ^ 51 <= (3 * 2 ^ 51 - 1) * uL).
      { assert (0 <= 2 ^ 51) by lia. set (c := 2 ^ 51) in *.
        assert (ux * c <= units (Math_log (of_Z (1024 ^ 3 - 1))) * c)
          by (apply Z.mul_le_mono_nonneg_r; lia).
        lia. }
      assert (Hmag : ux < 2 ^ (-51 + 53) * uL).
      { change (2 ^ (-51 + 53)) with 4.
        assert (0 < 2 ^ 51) by reflexivity. set (c := 2 ^ 51) in *.
        apply (Z.mul_lt_mono_pos_r c); [assumption|]. lia. }
      destruct (div_bounds (Math_log bytes) (Math_log k) (-51) Hxd Hxn HLd HLn
                  HL0 ltac:(lia) Hmag) as (y & Hy & Hyd & Hyn & Hhi & Hlo & _).
      specialize (Hhi (3 * 2 ^ 51 - 1) Hup).
      assert (Hdn : 2 * 2 ^ 51 * uL <= ux * 2 ^ (- -51)).
      { change (- -51) with 51. assert (0 <= 2 ^ 51) by lia.
        set (c := 2 ^ 51) in *.
        assert (2 * uL * c <= ux * c) by (apply Z.mul_le_mono_nonneg_r; lia).
        lia. }
      specialize (Hlo (2 * 2 ^ 51) Hdn).
      exists y. split; [exact Hy|]. split; [exact Hyd|]. split; [exact Hyn|].
      split.
      + replace (2 * 2 ^ 1074) with (2 * 2 ^ 51 * 2 ^ (-51 + 1074))
          by (rewrite <- Z.mul_assoc, <- Z.pow_add_r by lia; reflexivity).
        exact Hlo.
      + replace (2 ^ 1074) with (2 ^ 51 * 2 ^ (-51 + 1074))
          by (rewrite <- Z.pow_add_r by lia; reflexivity).
        assert (0 < 2 ^ (-51 + 1074)) by (apply Z.pow_pos_nonneg; lia).
        set (c := 2 ^ 51) in *. set (C := 2 ^ (-51 + 1074)) in *.
        replace ((3 * c - 1) * C) with (3 * (c * C) - C) in Hhi by ring. lia.
    - (* from 1024^3 and below 1024^4: the quotient is above the midpoint
         below 3, and rounds to 3 at least *)
      change (1024 ^ (3 + 1) - 1) with (1024 ^ 4 - 1) in Hends.
      assert (Hup : ux * 2 ^ 51 <= (2 ^ 53 - 1) * uL).
      { assert (0 <= 2 ^ 51) by lia. set (c := 2 ^ 51) in *.
        assert (ux * c <= units (Math_log (of_Z (1024 ^ 4 - 1))) * c)
          by (apply Z.mul_le_mono_nonneg_r; lia).
        lia. }
      assert (Hmid : (3 * 2 ^ 52 - 1) * uL < ux * 2 ^ 52).
      { assert (0 <= 2 ^ 52) by lia. set (c := 2 ^ 52) in *.
        assert (units (Math_log (of_Z (1024 ^ 3))) * c <= ux * c)
          by (apply Z.mul_le_mono_nonneg_r; lia).
        lia. }
      assert (Hmag : ux < 2 ^ (-51 + 53) * uL).
      { change (2 ^ (-51 + 53)) with 4.
        change (2 ^ 53 - 1) with (4 * 2 ^ 51 - 1) in Hup.
        assert (0 < 2 ^ 51) by reflexivity. set (c := 2 ^ 51) in *.
        apply (Z.mul_lt_mono_pos_r c); [assumption|]. lia. }
      destruct (div_bounds (Math_log bytes) (Math_log k) (-51) Hxd Hxn HLd HLn
                  HL0 ltac:(lia) Hmag) as (y & Hy & Hyd & Hyn & Hhi & _ & Hlo2 & _).
      specialize (Hhi (2 ^ 53 - 1) Hup).
      assert (Hbin : 2 ^ (-51 + 53) * uL <= 2 * ux).
      { change (2 ^ (-51 + 53)) with 4.
        change (3 * 2 ^ 52 - 1) with (2 * 2 ^ 52 + (2 ^ 52 - 1)) in Hmid.
        assert (0 < 2 ^ 52 - 1) by reflexivity.
        assert (0 < 2 ^ 52) by reflexivity.
        set (c := 2 ^ 52) in *.
        assert (0 <= (c - 1) * uL) by (apply Z.mul_nonneg_nonneg; lia).
        assert (2 * uL * c < ux * c) by lia.
        assert (2 * uL < ux) by (apply (Z.mul_lt_mono_pos_r c); assumption).
        lia. }
      assert (Hmid' : (2 * (3 * 2 ^ 51) - 1) * uL < 2 * (ux * 2 ^ (- -51))).
      { change (- -51) with 51. change (2 * (3 * 2 ^ 51) - 1) with (3 * 2 ^ 52 - 1).
        change (2 ^ 52) with (2 * 2 ^ 51) in Hmid.
        set (c := 2 ^ 51) in *. lia. }
      specialize (Hlo2 (3 * 2 ^ 51) Hbin Hmid').
      exists y. split; [exact Hy|]. split; [exact Hyd|]. split; [exact Hyn|].
      split.
      + replace (3 * 2 ^ 1074) with (3 * 2 ^ 51 * 2 ^ (-51 + 1074))
          by (rewrite <- Z.mul_assoc, <- Z.pow_add_r by lia; reflexivity).
        exact Hlo2.
      + replace (2 ^ 1074) with (2 ^ 51 * 2 ^ (-51 + 1074))
          by (rewrite <- Z.pow_add_r by lia; reflexivity).
        assert (0 < 2 ^ (-51 + 1074)) by (apply Z.pow_pos_nonneg; lia).
        change (2 ^ 53 - 1) with (4 * 2 ^ 51 - 1) in Hhi.
        set (c := 2 ^ 51) in *. set (C := 2 ^ (-51 + 1074)) in *.
        replace ((4 * c - 1) * C) with (4 * (c * C) - C) in Hhi by ring. lia. }
  destruct Hqu as (y & Hy & Hyd & Hyn & Hi).
  destruct (formatBytes_of_quotient Math_log bytes decimals y j
              Hb Hdec Hy Hyd Hyn Hi) as (Hw & _ & Hf).
  split; assumption.
Qed.

Lemma formatBytes_unit_by_range_witness :
  whole (unitIndex sample_log (of_Z (1024 ^ 3))) = Some 3 /\
  formatBytes sample_log (of_Z (1024 ^ 3)) 1 =
    Quantity (of_Z (1024 ^ 3)) (unitIndex sample_log (of_Z (1024 ^ 3)))
      (Z.max 0 1) (nth_error sizes (Z.to_nat 3)).
Proof.
  apply (formatBytes_unit_by_range sample_log (of_Z (1024 ^ 3)) 1 3
           sample_log_assumptions sample_log_anchors);
    [reflexivity | lia | reflexivity | reflexivity | lia].
Defined.

Local Open Scope string_scope.

(** ** The event loop *)

Import EventLoop.
Local Open Scope prog_scope.

(** Letting each awaited event arrive at once (an image event reporting
    what the browser's decoder says) ends, after finitely many events, in
    the world that the uninterrupted run computes. *)
Lemma drain_is_run env (p : Prog unit) :
  forall w, exists fuel,
    drain env fuel (advance env p w) = (snd (run env p w), None).
Proof.
  induction p as [a | X e k IH]; intros w.
  - exists 0%nat. reflexivity.
  - cbn [advance run].
    destruct e; cbn [suspension];
      try (destruct (respond env _ (log _ w)) as [x w'] eqn:Hr;
           destruct (IH x w') as [fuel Hfuel]; exists fuel; exact Hfuel).
    + destruct (IH tt (log (Sleep ms) w)) as [fuel Hfuel].
      exists (S fuel). cbn [drain resume respond]. exact Hfuel.
    + destruct (IH (decode env src) (log (LoadImage src) w)) as [fuel Hfuel].
      exists (S fuel). cbn [drain resume respond]. exact Hfuel.
Qed.

Lemma advance_handleCompress env s w :
  (advance env (handleCompress s) w = (w, None)
   /\ (JsString.truthy (originalImageUrl s) = false \/ originalFile s = None))
  \/ exists file url,
       originalFile s = Some file /\ originalImageUrl s = Some url /\
       advance env (handleCompress s) w =
         (log (Sleep 1500)
            (snd (respond env (SetStatus compressing)
                    (log (SetStatus compressing) w))),
          Some (AwaitTimer 1500
                  (image <- perform (LoadImage url) ;; afterImage file image))).
Proof.
  unfold handleCompress.
  destruct (originalImageUrl s) as [[|c u]|]; [left | | left];
    try (split; [reflexivity | now left]).
  destruct (originalFile s) as [file|]; [right | left].
  - exists file, (String c u). repeat split.
  - split; [reflexivity | now right].
Qed.

Lemma consistent_start : consistent {| world := start initial; waiting := [] |}.
Proof.
  unfold consistent. cbn. repeat split; try discriminate; constructor.
Qed.

Lemma Forall_enqueue (P : Pending -> Prop) (o : option Pending) (l : list Pending) :
  Forall P l -> (forall pd, o = Some pd -> P pd) -> Forall P (enqueue o l).
Proof.
  intros Hl Ho. destruct o as [pd|]; cbn [enqueue]; [|exact Hl].
  apply Forall_app. split; [exact Hl|]. constructor; [now apply Ho | constructor].
Qed.

Lemma step_consistent env cfg cfg' :
  consistent cfg -> step env cfg cfg' -> consistent cfg'.
Proof.
  intros (Hdone & Hidle & Hfile & Hwait) Hstep.
  destruct Hstep as [cfg c Hoff | cfg before pd behind image Hpd].
  - destruct cfg as [[s cv d t] q]. cbn [world state waiting] in *.
    destruct c as [file | | |]; cbn [handler].
    + (* a file is chosen or dropped *)
      assert (Hs : status s = idle).
      { unfold offered in Hoff. destruct (status s); try discriminate; reflexivity. }
      unfold handleImageSelect.
      destruct (JsString.startsWith (type file) "image/");
        unfold consistent; run_handler.
      * repeat split; try discriminate; try assumption.
      * rewrite Hs. repeat split; try discriminate; try assumption;
          try (now apply Hidle); try (now apply Hfile).
        all: intros; try (now apply Hfile).
    + (* Compress *)
      destruct (advance_handleCompress env s
                  {| state := s; canvas := cv; draws := d; trace := t |})
        as [[-> _] | (file & url & Hf & Hu & ->)].
      * unfold consistent. cbn. repeat split; try assumption;
          try (now apply Hdone); try (now apply Hidle); try (now apply Hfile).
      * unfold consistent, after. run_handler.
        repeat split; try discriminate; try (now apply Hfile).
        apply Forall_app. split; [exact Hwait|].
        constructor; [|constructor]. exists file, url. now left.
    + (* Download *)
      assert (Hadv : advance env (handleDownload s)
                       {| state := s; canvas := cv; draws := d; trace := t |}
                     = ({| state := s; canvas := cv; draws := d;
                           trace := match compressedImageUrl s with
                                    | Some (String c u) =>
                                        (t ++ [Act (ClickLink (String c u)
                                                 (downloadName (originalFile s)))])%list
                                    | _ => t
                                    end |}, None)).
      { unfold handleDownload.
        destruct (compressedImageUrl s) as [[|c u]|]; reflexivity. }
      rewrite Hadv. unfold consistent. cbn.
      repeat split; try assumption;
        try (now apply Hdone); try (now apply Hidle); try (now apply Hfile).
    + (* New Image *)
      assert (Hadv : state (fst (advance env (handleClear s)
                       {| state := s; canvas := cv; draws := d; trace := t |}))
                     = initial
                     /\ snd (advance env (handleClear s)
                          {| state := s; canvas := cv; draws := d; trace := t |})
                        = None).
      { unfold handleClear, revokeIfSet.
        destruct (originalImageUrl s) as [[|c u]|];
          destruct (compressedImageUrl s) as [[|c' u']|]; split; reflexivity. }
      destruct Hadv as [Hst Hnone].
      unfold consistent, after. cbn [world waiting]. rewrite Hst, Hnone.
      cbn. repeat split; try discriminate; assumption.
  - destruct cfg as [[s cv d t] q]. cbn [world state waiting] in *.
    subst q. apply Forall_app in Hwait. destruct Hwait as [Hb Hrest].
    inversion Hrest as [|pd' l' Hfc Hbehind]; subst.
    assert (Hq : Forall fromCompress (before ++ behind)).
    { apply Forall_app. now split. }
    destruct Hfc as (file & url & [-> | ->]); cbn [resume].
    + (* the timer fires: the image load starts *)
      unfold consistent, after. run_handler.
      repeat split; try assumption;
        try (now apply Hdone); try (now apply Hidle); try (now apply Hfile).
      apply Forall_app. split; [exact Hq|].
      constructor; [|constructor]. exists file, url. now right.
    + (* the image event arrives *)
      destruct image as [[width height]|]; cbn [bind afterImage].
      * unfold onload. destruct (context2d env) eqn:Hc;
          unfold consistent, after; run_handler; rewrite Hc; run_handler;
          repeat split; try discriminate; try assumption;
          try (now apply Hfile).
      * unfold onerror, consistent, after. run_handler.
        repeat split; try discriminate; try assumption; try (now apply Hfile).
Qed.

Lemma reachable_consistent env cfg : reachable env cfg -> consistent cfg.
Proof.
  induction 1 as [|cfg cfg' _ IH Hstep].
  - exact consistent_start.
  - exact (step_consistent env cfg cfg' IH Hstep).
Qed.

(** X10: in every configuration the page can reach from its initial
    state, by the controls it offers and by timers and image events arriving
    in any order and with any outcome: status 'done' comes with stats and a
    compressed image URL; status 'idle' comes with no file, no compressed
    image and no stats; and the original file is recorded exactly when its
    object URL is. *)
Theorem reachable_state_invariant env cfg :
  reachable env cfg ->
  (status (state (world cfg)) = done ->
     stats (state (world cfg)) <> None /\
     compressedImageUrl (state (world cfg)) <> None)
  /\ (status (state (world cfg)) = idle ->
        originalFile (state (world cfg)) = None /\
        compressedImageUrl (state (world cfg)) = None /\
        stats (state (world cfg)) = None)
  /\ (originalFile (state (world cfg)) = None <->
      originalImageUrl (state (world cfg)) = None).
Proof.
  intros Hr. destruct (reachable_consistent env cfg Hr) as (H1 & H2 & H3 & _).
  split; [exact H1 | split; [exact H2 | exact H3]].
Qed.

Lemma reachable_state_invariant_witness :
  status (state (world sample_done)) = done
  /\ stats (state (world sample_done)) <> None
  /\ compressedImageUrl (state (world sample_done)) <> None
  /\ (originalFile (state (world sample_done)) = None <->
      originalImageUrl (state (world sample_done)) = None).
Proof.
  assert (R : reachable (sample_env (of_Z 0)) sample_done).
  { apply (reach_step (sample_env (of_Z 0)) sample_loading).
    - apply (reach_step (sample_env (of_Z 0)) sample_clicked).
      + apply (reach_step (sample_env (of_Z 0)) sample_chosen).
        * apply (reach_step (sample_env (of_Z 0))
                   {| world := start initial; waiting := [] |});
            [apply reach_start|].
          apply (step_click (sample_env (of_Z 0))
                   {| world := start initial; waiting := [] |}
                   (Upload sample_file)).
          reflexivity.
        * apply (step_click (sample_env (of_Z 0)) sample_chosen ClickCompress).
          reflexivity.
      + apply (step_event (sample_env (of_Z 0)) sample_clicked
                 [] sample_timer [] None).
        reflexivity.
    - apply (step_event (sample_env (of_Z 0)) sample_loading
               [] sample_image [] (Some (640, 480))).
      reflexivity. }
  destruct (reachable_state_invariant (sample_env (of_Z 0)) sample_done R)
    as (Hdone & _ & Hfile).
  split; [reflexivity|].
  destruct (Hdone eq_refl) as [Hstats Hurl].
  split; [exact Hstats|]. split; [exact Hurl | exact Hfile].
Defined.

(** The successor configurations, state and queue. *)

Lemma after_upload env w q file :
  JsString.startsWith (type file) "image/" = true ->
  state (world (after (advance env (handleImageSelect file) w) q)) =
    {| status := image_loaded; originalFile := Some file;
       originalImageUrl := Some (objectURL env file);
       compressedImageUrl := None; stats := None; error := None |}
  /\ waiting (after (advance env (handleImageSelect file) w) q) = q.
Proof.
  intros Hi. destruct w as [s cv d t]. unfold handleImageSelect, after.
  rewrite Hi. run_handler. split; reflexivity.
Qed.

Lemma after_compress env w q file url :
  originalFile (state w) = Some file -> originalImageUrl (state w) = Some url ->
  JsString.truthy (Some url) = true ->
  state (world (after (advance env (handleCompress (state w)) w) q)) =
    {| status := compressing; originalFile := Some file;
       originalImageUrl := Some url;
       compressedImageUrl := compressedImageUrl (state w);
       stats := stats (state w); error := error (state w) |}
  /\ waiting (after (advance env (handleCompress (state w)) w) q) =
     (q ++ [AwaitTimer 1500
              (image <- perform (LoadImage url) ;; afterImage file image)])%list.
Proof.
  intros Hf Hu Ht. destruct w as [s cv d t]. cbn [state] in *.
  unfold handleCompress, after. rewrite Hf, Hu.
  destruct url as [|c u]; [discriminate|]. run_handler.
  rewrite Hf, Hu. split; reflexivity.
Qed.

Lemma after_clear env w q :
  state (world (after (advance env (handleClear (state w)) w) q)) = initial
  /\ waiting (after (advance env (handleClear (state w)) w) q) = q.
Proof.
  destruct w as [s cv d t]. cbn [state]. unfold handleClear, revokeIfSet, after.
  destruct (originalImageUrl s) as [[|c u]|];
    destruct (compressedImageUrl s) as [[|c' u']|]; split; reflexivity.
Qed.

Lemma after_timer env w q file url image :
  state (world (after (resume env
     (AwaitTimer 1500 (image <- perform (LoadImage url) ;; afterImage file image))
     image w) q)) = state w
  /\ waiting (after (resume env
     (AwaitTimer 1500 (image <- perform (LoadImage url) ;; afterImage file image))
     image w) q) =
     (q ++ [AwaitImage url (fun image => bind (Ret image) (afterImage file))])%list.
Proof.
  destruct w as [s cv d t]. split; reflexivity.
Qed.

Lemma after_image_loaded env w q file url width height :
  context2d env = true ->
  let cfg' := after (resume env
     (AwaitImage url (fun image => bind (Ret image) (afterImage file)))
     (Some (width, height)) w) q in
  status (state (world cfg')) = done
  /\ originalFile (state (world cfg')) = originalFile (state w)
  /\ originalImageUrl (state (world cfg')) = originalImageUrl (state w)
  /\ option_map originalSize (stats (state (world cfg'))) = Some (size file)
  /\ waiting cfg' = q.
Proof.
  intros Hc cfg'. subst cfg'. destruct w as [s cv d t].
  unfold after, resume, afterImage, onload. run_handler. rewrite Hc. run_handler.
  repeat split.
Qed.

Lemma after_image_failed env w q file url :
  let cfg' := after (resume env
     (AwaitImage url (fun image => bind (Ret image) (afterImage file)))
     None w) q in
  status (state (world cfg')) = image_loaded
  /\ originalFile (state (world cfg')) = originalFile (state w)
  /\ originalImageUrl (state (world cfg')) = originalImageUrl (state w)
  /\ error (state (world cfg')) = Some "Could not load image for processing."
  /\ stats (state (world cfg')) = stats (state w)
  /\ waiting cfg' = q.
Proof.
  intros cfg'. subst cfg'. destruct w as [s cv d t].
  unfold after, resume, afterImage, onerror. run_handler. repeat split.
Qed.

(** X11: 'New Image' does not cancel a compression that is under way.
    For an accepted file with a non-empty object URL and a canvas context:
    choose the file, click Compress, let the timer fire, click 'New Image'
    while the image loads, and let the image event arrive.  If the image
    loaded, the page shows status 'done' with stats for that file; if it
    failed, status 'image-loaded' with the error message.  Either way no
    original file or URL is recorded any more, and the page is not idle. *)
Theorem new_image_does_not_cancel env file (image : option (Z * Z)) :
  JsString.startsWith (type file) "image/" = true ->
  JsString.truthy (Some (objectURL env file)) = true ->
  context2d env = true ->
  exists cfg,
    reachable env cfg /\ waiting cfg = []
    /\ originalFile (state (world cfg)) = None
    /\ originalImageUrl (state (world cfg)) = None
    /\ match image with
       | Some _ =>
           status (state (world cfg)) = done /\
           option_map originalSize (stats (state (world cfg))) = Some (size file)
       | None =>
           status (state (world cfg)) = image_loaded /\
           stats (state (world cfg)) = None /\
           error (state (world cfg)) = Some "Could not load image for processing."
       end.
Proof.
  intros Hi Ht Hc.
  set (url := objectURL env file) in *.
  pose (cfg0 := {| world := start initial; waiting := [] |}).
  assert (R0 : reachable env cfg0) by constructor.
  (* the file is chosen *)
  pose proof (reach_step env cfg0 _ R0 (step_click env cfg0 (Upload file) eq_refl)) as R1.
  cbn [handler] in R1.
  destruct (after_upload env (world cfg0) (waiting cfg0) file Hi) as [S1 Q1].
  set (cfg1 := after _ _) in R1, S1, Q1. clearbody cfg1.
  (* Compress is clicked: the handler waits for its timer *)
  assert (O1 : offered (state (world cfg1)) ClickCompress = true)
    by (rewrite S1; reflexivity).
  pose proof (reach_step env cfg1 _ R1 (step_click env cfg1 ClickCompress O1)) as R2.
  cbn [handler] in R2.
  destruct (after_compress env (world cfg1) (waiting cfg1) file url) as [S2 Q2];
    [rewrite S1; reflexivity | rewrite S1; reflexivity | exact Ht |].
  set (cfg2 := after _ _) in R2, S2, Q2. clearbody cfg2.
  rewrite Q1 in Q2. cbn [waiting cfg0 List.app] in Q2.
  (* the timer fires: the image starts to load *)
  pose proof (reach_step env cfg2 _ R2
                (step_event env cfg2 [] _ [] None Q2)) as R3.
  destruct (after_timer env (world cfg2) [] file url None) as [S3 Q3].
  cbn [List.app] in R3.
  set (cfg3 := after _ _) in R3, S3, Q3. clearbody cfg3.
  cbn [List.app] in Q3.
  (* New Image is clicked while the image loads *)
  assert (O3 : offered (state (world cfg3)) ClickNewImage = true)
    by (rewrite S3, S2; reflexivity).
  pose proof (reach_step env cfg3 _ R3 (step_click env cfg3 ClickNewImage O3)) as R4.
  cbn [handler] in R4.
  destruct (after_clear env (world cfg3) (waiting cfg3)) as [S4 Q4].
  set (cfg4 := after _ _) in R4, S4, Q4. clearbody cfg4.
  rewrite Q3 in Q4.
  (* the image event arrives *)
  pose proof (reach_step env cfg4 _ R4
                (step_event env cfg4 [] _ [] image Q4)) as R5.
  cbn [List.app] in R5.
  destruct image as [[width height]|].
  - destruct (after_image_loaded env (world cfg4) [] file url width height Hc)
      as (S5 & F5 & U5 & Z5 & Q5).
    set (cfg5 := after _ _) in R5, S5, F5, U5, Z5, Q5. clearbody cfg5.
    exists cfg5. rewrite F5, U5, S4. repeat split; assumption.
  - destruct (after_image_failed env (world cfg4) [] file url)
      as (S5 & F5 & U5 & E5 & Z5 & Q5).
    set (cfg5 := after _ _) in R5, S5, F5, U5, E5, Z5, Q5. clearbody cfg5.
    exists cfg5. rewrite F5, U5, Z5, S4. repeat split; assumption.
Qed.

Lemma new_image_does_not_cancel_witness :
  exists cfg,
    reachable (sample_env (of_Z 0)) cfg /\ waiting cfg = []
    /\ originalFile (state (world cfg)) = None
    /\ originalImageUrl (state (world cfg)) = None
    /\ status (state (world cfg)) = done
    /\ option_map originalSize (stats (state (world cfg)))
       = Some (size sample_file).
Proof.
  apply (new_image_does_not_cancel (sample_env (of_Z 0)) sample_file
           (Some (640, 480))); reflexivity.
Defined.

Lemma enqueue_some_nonempty (pd : Pending) (l : list Pending) :
  enqueue (Some pd) l <> [].
Proof.
  cbn [enqueue]. destruct l; discriminate.
Qed.

(** A turn of the event loop leaves the status other than 'compressing',
    or leaves a handler waiting, or changes neither status nor queue. *)
Lemma step_progress env cfg cfg' :
  Forall fromCompress (waiting cfg) -> step env cfg cfg' ->
  status (state (world cfg')) <> compressing
  \/ waiting cfg' <> []
  \/ (status (state (world cfg')) = status (state (world cfg))
      /\ waiting cfg' = waiting cfg).
Proof.
  intros Hwait Hstep.
  destruct Hstep as [cfg c Hoff | cfg before pd behind image Hpd].
  - destruct cfg as [[s cv d t] q]. cbn [world state waiting] in *.
    destruct c as [file | | |]; cbn [handler].
    + unfold handleImageSelect.
      destruct (JsString.startsWith (type file) "image/"); unfold after;
        run_handler.
      * left. discriminate.
      * right. right. split; reflexivity.
    + destruct (advance_handleCompress env s
                  {| state := s; canvas := cv; draws := d; trace := t |})
        as [[-> _] | (file & url & Hf & Hu & ->)].
      * right. right. split; reflexivity.
      * right. left. unfold after. cbn [snd waiting]. apply enqueue_some_nonempty.
    + right. right. unfold handleDownload, after.
      destruct (compressedImageUrl s) as [[|c u]|]; split; reflexivity.
    + left. destruct (after_clear env
                        {| state := s; canvas := cv; draws := d; trace := t |} q)
        as [Hst _].
      cbn [state] in Hst. rewrite Hst. discriminate.
  - destruct cfg as [[s cv d t] q]. cbn [world state waiting] in *.
    subst q. apply Forall_app in Hwait. destruct Hwait as [_ Hrest].
    inversion Hrest as [|pd' l' Hfc _]; subst.
    destruct Hfc as (file & url & [-> | ->]).
    + right. left. unfold after. cbn [resume advance bind perform suspension snd waiting].
      apply enqueue_some_nonempty.
    + left. destruct image as [[width height]|]; cbn [resume bind afterImage].
      * unfold onload. destruct (context2d env) eqn:Hc; unfold after;
          run_handler; rewrite Hc; run_handler; discriminate.
      * unfold onerror, after. run_handler. discriminate.
Qed.

(** X14: the page never shows 'compressing' with nothing under way: in
    every reachable configuration whose status is 'compressing', a handler
    is waiting for its timer or for its image. *)
Theorem compressing_has_pending_work env cfg :
  reachable env cfg ->
  status (state (world cfg)) = compressing -> waiting cfg <> [].
Proof.
  induction 1 as [|cfg cfg' Hreach IH Hstep].
  - discriminate.
  - intros Hc.
    destruct (reachable_consistent env cfg Hreach) as (_ & _ & _ & Hwait).
    destruct (step_progress env cfg cfg' Hwait Hstep) as [H | [H | [Hs Hq]]].
    + contradiction.
    + exact H.
    + rewrite Hq. apply IH. now rewrite <- Hs.
Qed.

Lemma compressing_has_pending_work_witness :
  waiting
    (after (advance (sample_env (of_Z 0))
              (handleCompress
                 (state (world (after (advance (sample_env (of_Z 0))
                                         (handleImageSelect sample_file)
                                         (start initial)) []))))
              (world (after (advance (sample_env (of_Z 0))
                               (handleImageSelect sample_file)
                               (start initial)) [])))
       (waiting (after (advance (sample_env (of_Z 0))
                          (handleImageSelect sample_file)
                          (start initial)) []))) <> []
  /\ status (state (world
       (after (advance (sample_env (of_Z 0))
                 (handleImageSelect sample_file) (start initial)) [])))
     = image_loaded.
Proof.
  split; [|reflexivity].
  apply (compressing_has_pending_work (sample_env (of_Z 0))); [|reflexivity].
  eapply reach_step.
  - eapply reach_step; [apply reach_start|].
    apply (step_click (sample_env (of_Z 0))
             {| world := start initial; waiting := [] |} (Upload sample_file)).
    reflexivity.
  - apply (step_click (sample_env (of_Z 0))
             (after (advance (sample_env (of_Z 0))
                       (handleImageSelect sample_file) (start initial)) [])
             ClickCompress).
    reflexivity.
Defined.
